(** * Q3A Demo Map Checker: a shallow embedding of [quake3_map_checker.py]

    The script decides whether a Quake 3 map archive (pk3) is playable with
    the demo assets.  It lists the archives, extracts the asset references
    of the map (BSP texture lump, BSP entity lump, shader scripts), sorts
    every reference into one of five lists and prints a verdict.

    Modelling choices.
    - A Python [str] is a [string], a character being its code point; the
      range of the model is the code points 0 to 255.  On this range
      [str.lower] and the classes [\s] and [\w] of [re] are those of
      Python: the no-break space and the next-line control are white space,
      the accented letters are word characters and have a lower case.  The
      decoding of a shader script is exact as a list of code points; a
      character above 255 is outside the range of the model and is left
      out of the text that is scanned.
    - A Python [bytes] is a [list byte]; a Python [int] is a [Z].
    - A Python [set] of strings is a [gset string]; [sorted] is a merge sort
      for the code-point order of strings.
    - An opened [zipfile.ZipFile] is modelled by the two methods the script
      calls, [namelist] and [read]; [read] gives [None] where the method
      raises (a member that is not there, a bad checksum, an encrypted or
      unsupported member).  [gather_deps] takes the map archive as the
      [with] statement has opened it.
    - [os.path] is [posixpath].
    - Exceptions are modelled by the type [result].
    - The download of the map (lines 30-42) and the printing of the report
      are left out; the verdict is the branch that the script takes. *)

From Stdlib Require Import ZArith Ascii String List Bool Lia.
From Stdlib Require Strings.Byte.
From stdpp Require Import base option list sorting gmap sets strings.

Local Open Scope Z_scope.

(** ** Python primitives *)

Module Py.

(** The characters that [c.lower()] changes: [A-Z], and the accented
    capitals from 192 to 222 but for the multiplication sign, 215. *)
Definition is_upper (c : ascii) : bool :=
  let n := nat_of_ascii c in
  (((65 <=? n) && (n <=? 90)) || ((192 <=? n) && (n <=? 214))
   || ((216 <=? n) && (n <=? 222)))%nat.

(** [c.lower()] on one character: the lower-case letter is 32 further. *)
Definition lower_char (c : ascii) : ascii :=
  if is_upper c then ascii_of_nat (nat_of_ascii c + 32) else c.

(** [s.lower()] *)
Fixpoint lower (s : string) : string :=
  match s with
  | EmptyString => EmptyString
  | String c s' => String (lower_char c) (lower s')
  end.

(** [s.startswith(pre)] *)
Fixpoint startswith (s pre : string) : bool :=
  match pre, s with
  | EmptyString, _ => true
  | String _ _, EmptyString => false
  | String a pre', String b s' => Ascii.eqb a b && startswith s' pre'
  end.

(** [s[n:]] and [s[:n]] for a natural number [n] *)
Fixpoint drop_str (n : nat) (s : string) : string :=
  match n, s with
  | O, _ => s
  | S _, EmptyString => EmptyString
  | S n', String _ s' => drop_str n' s'
  end.

Fixpoint take_str (n : nat) (s : string) : string :=
  match n, s with
  | O, _ => EmptyString
  | S _, EmptyString => EmptyString
  | S n', String c s' => String c (take_str n' s')
  end.

(** [s.endswith(suf)] *)
Definition endswith (s suf : string) : bool :=
  (String.length suf <=? String.length s)%nat
  && String.eqb (drop_str (String.length s - String.length suf) s) suf.

(** [s[:-k]] for a positive literal [k]: everything but the last [k]
    characters (the empty string when [s] is shorter than [k]). *)
Definition drop_last (k : nat) (s : string) : string :=
  take_str (String.length s - k) s.

(** [c in s] for a character [c] *)
Fixpoint contains_char (c : ascii) (s : string) : bool :=
  match s with
  | EmptyString => false
  | String a s' => Ascii.eqb a c || contains_char c s'
  end.

(** [s.split(sep)] for a one-character separator: the pieces between the
    separators, in order; there is always at least one piece. *)
Fixpoint split (sep : ascii) (s : string) : list string :=
  match s with
  | EmptyString => [EmptyString]
  | String c s' =>
      if Ascii.eqb c sep then EmptyString :: split sep s'
      else
        match split sep s' with
        | piece :: pieces => String c piece :: pieces
        | [] => [String c EmptyString]
        end
  end.

(** [os.path.basename(p)] of [posixpath]: what follows the last slash. *)
Definition basename (p : string) : string :=
  List.last (split "/"%char p) EmptyString.

(** Truth value of a string: only the empty string is false. *)
Definition nonempty (s : string) : bool :=
  match s with EmptyString => false | String _ _ => true end.

(** Truth value of a result that is a string or [None]. *)
Definition truthy (o : option string) : bool :=
  match o with Some c => nonempty c | None => false end.

(** [s.lstrip(c)], [s.rstrip(c)] and [s.strip(c)] for one character *)
Fixpoint lstrip (c : ascii) (s : string) : string :=
  match s with
  | EmptyString => EmptyString
  | String a s' => if Ascii.eqb a c then lstrip c s' else s
  end.

Definition rstrip (c : ascii) (s : string) : string :=
  String.rev (lstrip c (String.rev s)).

Definition strip (c : ascii) (s : string) : string :=
  rstrip c (lstrip c s).

(** Index normalisation of a slice bound against a length [n]:
    negative bounds count from the end, and all bounds are clamped. *)
Definition norm_index (n i : Z) : Z :=
  if i <? 0 then Z.max (i + n) 0 else Z.min i n.

(** [l[start:stop]] *)
Definition slice {A} (l : list A) (start stop : Z) : list A :=
  let n := Z.of_nat (List.length l) in
  let a := norm_index n start in
  let b := norm_index n stop in
  take (Z.to_nat (b - a)) (drop (Z.to_nat a) l).

(** [range(n)] *)
Definition range (n : Z) : list Z :=
  List.map Z.of_nat (seq 0 (Z.to_nat n)).

(** [sorted(s)] for a set of strings *)
Definition sorted (s : gset string) : list string :=
  merge_sort String.le (elements s).

End Py.

(** ** Configuration (lines 10-28) *)

Definition DEMO_PAK0 : string := "baseq3/pak0-demo.pk3".
Definition FULL_PAK0 : string := "baseq3/pak0-full.pk3".

Definition POINT_PAKS : list string :=
  [ "baseq3/pak1.pk3"; "baseq3/pak2.pk3"; "baseq3/pak3.pk3"; "baseq3/pak4.pk3";
    "baseq3/pak5.pk3"; "baseq3/pak6.pk3"; "baseq3/pak7.pk3" ].

Definition IGNORE_PATHS : list string :=
  [ "textures/common/"; "textures/radiant/notex" ].

Definition IGNORE_TERMS : gset string :=
  {[ "noshader"; "shadernotfound"; "$lightmap"; "$whiteimage"; "flareshader" ]}.

(** ** Archives and errors *)

(** An opened archive: [namelist()] in listing order, and [read(name)]. *)
Record ZipFile := {
  namelist : list string;
  read : string -> option (list Byte.byte)
}.

(** What a path of the file system holds. *)
Inductive fsnode :=
  | FsZip (z : ZipFile)
  | FsOther.

Inductive error :=
  | BadZipFile      (* [zipfile.ZipFile] on something that is no archive *)
  | NoBspFound      (* [FileNotFoundError], No BSP found in map PK3 *)
  | InvalidBsp      (* [ValueError], Invalid BSP *)
  | StructError     (* [struct.error] of [struct.unpack] *)
  | ReadError.      (* what [ZipFile.read] raises on a member it cannot read *)

Inductive result (A : Type) :=
  | Ok (a : A)
  | Err (e : error).
Arguments Ok {A} a.
Arguments Err {A} e.

Definition bind {A B} (r : result A) (k : A -> result B) : result B :=
  match r with Ok a => k a | Err e => Err e end.

(** ** [load_zip_list] (lines 44-48) *)

Definition lower_names (z : ZipFile) : gset string :=
  list_to_set (List.map Py.lower (namelist z)).

Definition load_zip_list (fs : gmap string fsnode) (path : string)
  : result (gset string) :=
  match fs !! path with
  | Some (FsZip z) => Ok (lower_names z)
  | Some FsOther => Err BadZipFile
  | None => Ok ∅
  end.

(** ** [should_ignore] (lines 50-55) *)

Definition should_ignore (dep : string) : bool :=
  let low := Py.lower dep in
  existsb (fun pre => Py.startswith low pre) IGNORE_PATHS.

(** ** [find_in_set] (lines 57-79) *)

Definition candidates (base : string) : list string :=
  let low := Py.lower base in
  let name := Py.basename low in
  if negb (Py.contains_char "."%char name) then
    List.map (fun ext => low +:+ ext) [".tga"; ".jpg"] ++ [low]
  else if Py.endswith low ".tga" then
    [low; Py.drop_last 4 low +:+ ".jpg"]
  else if Py.endswith low ".jpg" then
    [low; Py.drop_last 4 low +:+ ".tga"]
  else
    [low].

Definition find_in_set (base : string) (s : gset string) : option string :=
  List.find (fun c => bool_decide (c ∈ s)) (candidates base).

(** ** Bytes and [struct.unpack] *)

Module Bytes.

Definition to_Z (b : Byte.byte) : Z := Z.of_N (Byte.to_N b).

(** Equality of two byte strings, [a == b]. *)
Fixpoint eqb (a b : list Byte.byte) : bool :=
  match a, b with
  | [], [] => true
  | x :: a', y :: b' => Byte.eqb x y && eqb a' b'
  | _, _ => false
  end.

(** The magic of a BSP file, the four bytes of IBSP. *)
Definition IBSP : list Byte.byte := String.list_byte_of_string "IBSP".

(** The first piece of a split at the null byte, with at most one split:
    the bytes before the first null byte. *)
Fixpoint before_null (b : list Byte.byte) : list Byte.byte :=
  match b with
  | [] => []
  | x :: b' => if Byte.eqb x Byte.x00 then [] else x :: before_null b'
  end.

(** [decode] for ascii with errors ignored: bytes above 127 are dropped. *)
Fixpoint decode_ascii_ignore (b : list Byte.byte) : string :=
  match b with
  | [] => EmptyString
  | x :: b' =>
      if to_Z x <? 128 then String (ascii_of_byte x) (decode_ascii_ignore b')
      else decode_ascii_ignore b'
  end.

Definition in_range (lo hi : Z) (x : Byte.byte) : bool :=
  (lo <=? to_Z x) && (to_Z x <=? hi).

(** A continuation byte of UTF-8. *)
Definition is_cont (x : Byte.byte) : bool := in_range 128 191 x.

(** The length of the well-formed UTF-8 sequence at the head of [b], and
    0 when there is none: one byte below 128; a lead byte from C2 to DF and
    one continuation byte; a lead byte from E0 to EF and two (after E0 the
    first from A0, after ED the first up to 9F); a lead byte from F0 to F4
    and three (after F0 the first from 90, after F4 the first up to 8F). *)
Definition utf8_len (b : list Byte.byte) : nat :=
  match b with
  | [] => 0%nat
  | x0 :: r =>
      if to_Z x0 <? 128 then 1%nat
      else if in_range 194 223 x0 then
        match r with
        | x1 :: _ => if is_cont x1 then 2%nat else 0%nat
        | _ => 0%nat
        end
      else if in_range 224 239 x0 then
        match r with
        | x1 :: x2 :: _ =>
            if (if to_Z x0 =? 224 then in_range 160 191 x1
                else if to_Z x0 =? 237 then in_range 128 159 x1
                else is_cont x1)
               && is_cont x2
            then 3%nat else 0%nat
        | _ => 0%nat
        end
      else if in_range 240 244 x0 then
        match r with
        | x1 :: x2 :: x3 :: _ =>
            if (if to_Z x0 =? 240 then in_range 144 191 x1
                else if to_Z x0 =? 244 then in_range 128 143 x1
                else is_cont x1)
               && is_cont x2 && is_cont x3
            then 4%nat else 0%nat
        | _ => 0%nat
        end
      else 0%nat
  end.

(** The code point that the well-formed sequence of [n] bytes at the head
    of [b] encodes. *)
Definition utf8_point (n : nat) (b : list Byte.byte) : Z :=
  match n, b with
  | 1%nat, x0 :: _ => to_Z x0
  | 2%nat, x0 :: x1 :: _ => (to_Z x0 - 192) * 64 + (to_Z x1 - 128)
  | 3%nat, x0 :: x1 :: x2 :: _ =>
      (to_Z x0 - 224) * 4096 + (to_Z x1 - 128) * 64 + (to_Z x2 - 128)
  | 4%nat, x0 :: x1 :: x2 :: x3 :: _ =>
      (to_Z x0 - 240) * 262144 + (to_Z x1 - 128) * 4096
      + (to_Z x2 - 128) * 64 + (to_Z x3 - 128)
  | _, _ => 0
  end.

(** [decode] for utf-8 with errors ignored, as the list of the code points
    of the text: every well-formed sequence gives its code point, every
    other byte is dropped; [skip] bytes belong to the sequence found
    last. *)
Fixpoint decode_utf8_points (skip : nat) (b : list Byte.byte) : list Z :=
  match b with
  | [] => []
  | _ :: b' =>
      match skip with
      | S k => decode_utf8_points k b'
      | O =>
          match utf8_len b with
          | O => decode_utf8_points 0 b'
          | S n => utf8_point (S n) b :: decode_utf8_points n b'
          end
      end
  end.

(** The text of a list of code points, on the range of the model: a code
    point above 255 is left out. *)
Fixpoint text_of_points (l : list Z) : string :=
  match l with
  | [] => EmptyString
  | p :: l' =>
      if p <? 256 then String (ascii_of_nat (Z.to_nat p)) (text_of_points l')
      else text_of_points l'
  end.

Definition decode_utf8_ignore (b : list Byte.byte) : string :=
  text_of_points (decode_utf8_points 0 b).

(** A little-endian signed 32-bit integer, format [<i]. *)
Definition int32_le (b0 b1 b2 b3 : Byte.byte) : Z :=
  let u := to_Z b0 + 256 * to_Z b1 + 65536 * to_Z b2 + 16777216 * to_Z b3 in
  if u <? 2147483648 then u else u - 4294967296.

(** [struct.unpack] for the format [<ii]: [buf] must hold exactly 8 bytes. *)
Definition unpack_ii (buf : list Byte.byte) : option (Z * Z) :=
  match buf with
  | [a0; a1; a2; a3; b0; b1; b2; b3] =>
      Some (int32_le a0 a1 a2 a3, int32_le b0 b1 b2 b3)
  | _ => None
  end.

End Bytes.

(** ** The regular expressions of the script

    Each pattern of the script is deterministic (no alternative of a pattern
    can succeed where an earlier one got stuck later on), so each is written
    as a direct matcher at a position, returning the captured groups and the
    length of the match; the scanning functions ([re.finditer], [re.findall],
    [re.sub]) try every position from left to right and resume after a match. *)

Module Re.

Definition dquote : ascii := "034"%char.
Definition newline : ascii := "010"%char.

(** [\s]: tab, line feed, vertical tab, form feed, carriage return, the
    separators 28 to 31, the space, the next-line control (133) and the
    no-break space (160). *)
Definition is_space (c : ascii) : bool :=
  let n := nat_of_ascii c in
  (((9 <=? n) && (n <=? 13)) || ((28 <=? n) && (n <=? 32))
   || (n =? 133) || (n =? 160))%nat.

(** [\w]: the characters for which [str.isalnum] holds, and the underscore.
    These are the digits, the letters [A-Z] and [a-z], the ordinal
    indicators (170, 186), the superscript digits (178, 179, 185), the micro
    sign (181), the fractions (188 to 190), and the accented letters, 192 to
    255 but for the multiplication and division signs (215, 247). *)
Definition is_word (c : ascii) : bool :=
  let n := nat_of_ascii c in
  (((48 <=? n) && (n <=? 57)) || ((65 <=? n) && (n <=? 90))
   || ((97 <=? n) && (n <=? 122)) || (n =? 95)
   || (n =? 170) || ((178 <=? n) && (n <=? 179)) || (n =? 181)
   || ((185 <=? n) && (n <=? 186)) || ((188 <=? n) && (n <=? 190))
   || ((192 <=? n) && (n <=? 214)) || ((216 <=? n) && (n <=? 246))
   || ((248 <=? n) && (n <=? 255)))%nat.

Definition is_word_opt (c : option ascii) : bool :=
  match c with Some a => is_word a | None => false end.

(** [\b] between the character before and the character after. *)
Definition word_boundary (prev next : option ascii) : bool :=
  xorb (is_word_opt prev) (is_word_opt next).

Definition head (s : string) : option ascii :=
  match s with EmptyString => None | String c _ => Some c end.

Definition last_char (s : string) : option ascii :=
  head (String.rev s).

(** The rest of [s] after the literal [pre], when [s] starts with it. *)
Fixpoint strip_prefix (pre s : string) : option string :=
  match pre, s with
  | EmptyString, _ => Some s
  | String _ _, EmptyString => None
  | String a pre', String b s' =>
      if Ascii.eqb a b then strip_prefix pre' s' else None
  end.

(** The longest prefix of [s] whose characters satisfy [p], and the rest:
    a greedy [[...]*]. *)
Fixpoint span (p : ascii -> bool) (s : string) : string * string :=
  match s with
  | EmptyString => (EmptyString, EmptyString)
  | String c s' =>
      if p c then let '(a, b) := span p s' in (String c a, b)
      else (EmptyString, s)
  end.

(** The pattern of the entity scan at the start of [s]: a double quote,
    the key, a double quote, [\s*], a double quote, one or more characters
    other than a double quote (the captured value), a double quote.  The
    result is the captured value and the length of the match. *)
Definition match_entity (key s : string) : option (string * nat) :=
  match strip_prefix (String dquote key +:+ String dquote EmptyString) s with
  | None => None
  | Some r1 =>
      let '(ws, r2) := span is_space r1 in
      match r2 with
      | String q r3 =>
          if Ascii.eqb q dquote then
            let '(val, r4) := span (fun c => negb (Ascii.eqb c dquote)) r3 in
            match val, r4 with
            | String _ _, String _ _ =>
                Some (val, (String.length key + 2 + String.length ws + 1
                            + String.length val + 1)%nat)
            | _, _ => None
            end
          else None
      | EmptyString => None
      end
  end.

(** [m.group(1) for m in re.finditer(pattern, s)]; [skip] characters
    belong to the match found last. *)
Fixpoint finditer_entity (key : string) (skip : nat) (s : string)
  : list string :=
  match s with
  | EmptyString => []
  | String _ s' =>
      match skip with
      | S k => finditer_entity key k s'
      | O =>
          match match_entity key s with
          | Some (v, len) => v :: finditer_entity key (len - 1) s'
          | None => finditer_entity key 0 s'
          end
      end
  end.

(** Number of characters up to and including the first star-slash. *)
Fixpoint close_len (s : string) : option nat :=
  match s with
  | EmptyString => None
  | String c s' =>
      match s' with
      | String d _ =>
          if Ascii.eqb c "*"%char && Ascii.eqb d "/"%char then Some 2%nat
          else option_map S (close_len s')
      | EmptyString => None
      end
  end.

(** The block-comment pattern (slash, star, the shortest run of any
    characters, star, slash; flag [re.S]) at the start of [s]: the length
    of the match. *)
Definition match_block (s : string) : option nat :=
  match s with
  | String a (String b r) =>
      if Ascii.eqb a "/"%char && Ascii.eqb b "*"%char
      then option_map (fun n => (2 + n)%nat) (close_len r)
      else None
  | _ => None
  end.

(** The line-comment pattern (two slashes, then every character up to
    the line feed, which the dot does not match) at the start of [s]: the
    length of the match. *)
Definition match_line (s : string) : option nat :=
  match s with
  | String a (String b r) =>
      if Ascii.eqb a "/"%char && Ascii.eqb b "/"%char
      then Some (2 + String.length (fst (span (fun c => negb (Ascii.eqb c newline)) r)))%nat
      else None
  | _ => None
  end.

(** [re.sub] with the empty replacement, for a pattern given by its
    matcher. *)
Fixpoint sub_empty (m : string -> option nat) (skip : nat) (s : string)
  : string :=
  match s with
  | EmptyString => EmptyString
  | String c s' =>
      match skip with
      | S k => sub_empty m k s'
      | O =>
          match m s with
          | Some len => sub_empty m (len - 1) s'
          | None => String c (sub_empty m 0 s')
          end
      end
  end.

Definition KEYWORDS : list string :=
  [ "qer_editorImage"; "map"; "clampMap"; "animMap" ].

(** One alternative [kw] of the pattern
    [\b(qer_editorImage|map|clampMap|animMap)\b\s+([^\s]+)] at the start
    of [s], [prev] being the character before: both groups and the length
    of the match. *)
Definition match_keyword (prev : option ascii) (s kw : string)
  : option (string * string * nat) :=
  if word_boundary prev (head s) then
    match strip_prefix kw s with
    | None => None
    | Some r1 =>
        if word_boundary (last_char kw) (head r1) then
          let '(ws, r2) := span is_space r1 in
          let '(tok, _) := span (fun c => negb (is_space c)) r2 in
          match ws, tok with
          | String _ _, String _ _ =>
              Some (kw, tok, (String.length kw + String.length ws
                              + String.length tok)%nat)
          | _, _ => None
          end
        else None
    end
  else None.

(** The alternatives are tried in the order of the pattern. *)
Fixpoint first_match {A B} (f : A -> option B) (l : list A) : option B :=
  match l with
  | [] => None
  | x :: l' => match f x with Some y => Some y | None => first_match f l' end
  end.

Definition match_directive (prev : option ascii) (s : string)
  : option (string * string * nat) :=
  first_match (match_keyword prev s) KEYWORDS.

(** [re.findall(pattern, s)]: the pairs of groups of every match. *)
Fixpoint findall_directive (skip : nat) (prev : option ascii) (s : string)
  : list (string * string) :=
  match s with
  | EmptyString => []
  | String c s' =>
      match skip with
      | S k => findall_directive k (Some c) s'
      | O =>
          match match_directive prev s with
          | Some (cmd, path, len) =>
              (cmd, path) :: findall_directive (len - 1) (Some c) s'
          | None => findall_directive 0 (Some c) s'
          end
      end
  end.

(** The same scan as [re.finditer] runs it: every match with the position
    [m.start()] where it starts, [pos] being the position of the head of
    [s]. *)
Fixpoint finditer_directive (pos skip : nat) (prev : option ascii)
  (s : string) : list (nat * (string * string)) :=
  match s with
  | EmptyString => []
  | String c s' =>
      match skip with
      | S k => finditer_directive (S pos) k (Some c) s'
      | O =>
          match match_directive prev s with
          | Some (cmd, path, len) =>
              (pos, (cmd, path))
                :: finditer_directive (S pos) (len - 1) (Some c) s'
          | None => finditer_directive (S pos) 0 (Some c) s'
          end
      end
  end.

End Re.

(** ** [gather_deps] (lines 88-132) *)

(** The filters of the two list comprehensions over [z.namelist()]. *)
Definition is_bsp_name (f : string) : bool :=
  Py.startswith (Py.lower f) "maps/" && Py.endswith (Py.lower f) ".bsp".

Definition is_shader_name (f : string) : bool :=
  Py.startswith (Py.lower f) "scripts/" && Py.endswith (Py.lower f) ".shader".

(** Entry [i] of the lump directory: eight bytes from offset [8 + i * 8]. *)
Definition lump (data : list Byte.byte) (i : Z) : option (Z * Z) :=
  Bytes.unpack_ii (Py.slice data (8 + i * 8) (8 + i * 8 + 8)).

(** The 17 entries of the directory; one failing [unpack] fails them all. *)
Definition read_lumps (data : list Byte.byte) : option (list (Z * Z)) :=
  mapM (lump data) (Py.range 17).

(** Lump 1: the name of record [i] and the loop over the records. *)
Definition record_bytes (data : list Byte.byte) (off i : Z) : list Byte.byte :=
  Py.slice data (off + i * 72) (off + i * 72 + 64).

Definition texture_name (data : list Byte.byte) (off i : Z) : string :=
  Bytes.decode_ascii_ignore (Bytes.before_null (record_bytes data off i)).

Definition texture_records (length : Z) : list Z :=
  let count := length / 72 in
  Py.range count.

Definition add_texture (data : list Byte.byte) (off : Z)
  (textures : gset string) (i : Z) : gset string :=
  let name := texture_name data off i in
  if Py.nonempty name then textures ∪ {[ name ]} else textures.

Definition gather_textures (data : list Byte.byte) (off length : Z)
  : gset string :=
  foldl (add_texture data off) ∅ (texture_records length).

(** Lump 0: the entity text and the three keys scanned in it. *)
Definition ENTITY_KEYS : list string := [ "model"; "model2"; "noise" ].

Definition add_entity_value (ents_deps : gset string) (p : string)
  : gset string :=
  if Py.nonempty p && negb (Py.startswith p "*") then ents_deps ∪ {[ p ]}
  else ents_deps.

Definition gather_entities (data : list Byte.byte) (off length : Z)
  : gset string :=
  let ents := Bytes.decode_ascii_ignore (Py.slice data off (off + length)) in
  foldl (fun acc key => foldl add_entity_value acc (Re.finditer_entity key 0 ents))
        ∅ ENTITY_KEYS.

(** Shader scripts: comments removed, directives scanned, paths kept when
    they start with one of three roots. *)
Definition SHADER_ROOTS : list string := [ "textures/"; "models/"; "sound/" ].

Definition strip_comments (text : string) : string :=
  Re.sub_empty Re.match_line 0 (Re.sub_empty Re.match_block 0 text).

Definition add_shader_path (shader_deps : gset string) (m : string * string)
  : gset string :=
  let path := Py.strip Re.dquote (snd m) in
  if existsb (fun root => Py.startswith path root) SHADER_ROOTS
  then shader_deps ∪ {[ path ]} else shader_deps.

Definition scan_shader_text (shader_deps : gset string) (text : string)
  : gset string :=
  foldl add_shader_path shader_deps
        (Re.findall_directive 0 None (strip_comments text)).

(** One turn of the loop over the scripts: the member is read, and the
    loop stops with the error when it cannot be. *)
Definition scan_shader_file (z : ZipFile) (acc : result (gset string))
  (sfile : string) : result (gset string) :=
  bind acc (fun shader_deps =>
  match read z sfile with
  | Some raw =>
      Ok (scan_shader_text shader_deps (Bytes.decode_utf8_ignore raw))
  | None => Err ReadError
  end).

Definition gather_shaders (z : ZipFile) : result (gset string) :=
  foldl (scan_shader_file z) (Ok ∅)
        (List.filter is_shader_name (namelist z)).

Definition gather_deps (z : ZipFile) : result (gset string * gset string) :=
  let files := lower_names z in
  let bsp_list := List.filter is_bsp_name (namelist z) in
  match bsp_list with
  | [] => Err NoBspFound
  | bsp :: _ =>
      match read z bsp with
      | None => Err ReadError
      | Some data =>
          if negb (Bytes.eqb (Py.slice data 0 4) Bytes.IBSP) then Err InvalidBsp
          else
            match read_lumps data with
            | None => Err StructError
            | Some lumps =>
                let '(off1, length1) := nth 1 lumps (0, 0) in
                let textures := gather_textures data off1 length1 in
                let '(off0, length0) := nth 0 lumps (0, 0) in
                let ents_deps := gather_entities data off0 length0 in
                bind (gather_shaders z) (fun shader_deps =>
                Ok (textures ∪ ents_deps ∪ shader_deps, files))
            end
      end
  end.

(** ** [get_texture_folders] (lines 134-143) *)

Definition add_folder (folders : gset string) (f : string) : gset string :=
  if Py.startswith f "textures/" then
    let subfolder := Py.split "/"%char f in
    if (1 <? List.length subfolder)%nat then
      folders ∪ {[ "textures/" +:+ nth 1 subfolder EmptyString +:+ "/" ]}
    else folders
  else folders.

Definition get_texture_folders (map_files : gset string) : gset string :=
  foldl add_folder ∅ (elements map_files).

(** ** The classification loop (lines 150-187) *)

Record buckets := {
  found_map : list string;
  found_demo : list string;
  found_patch : list string;
  found_full : list string;
  missing : list string
}.

Definition no_buckets : buckets :=
  {| found_map := []; found_demo := []; found_patch := [];
     found_full := []; missing := [] |}.

Definition in_texture_folder (texture_folders : gset string) (dep : string)
  : bool :=
  existsb (fun folder => Py.startswith (Py.lower dep) folder)
          (elements texture_folders).

Section Classification.

Variables texture_folders map_files demo_files patch_files full_files
  : gset string.

(** One turn of the loop; every [continue] is a branch that returns. *)
Definition classify_dep (bs : buckets) (dep : string) : buckets :=
  if bool_decide (Py.lower dep ∈ IGNORE_TERMS) then bs
  else if should_ignore dep then bs
  else if in_texture_folder texture_folders dep then
    {| found_map := found_map bs ++ [dep]; found_demo := found_demo bs;
       found_patch := found_patch bs; found_full := found_full bs;
       missing := missing bs |}
  else if Py.truthy (find_in_set dep map_files) then
    {| found_map := found_map bs ++ [dep]; found_demo := found_demo bs;
       found_patch := found_patch bs; found_full := found_full bs;
       missing := missing bs |}
  else if Py.truthy (find_in_set dep demo_files) then
    {| found_map := found_map bs; found_demo := found_demo bs ++ [dep];
       found_patch := found_patch bs; found_full := found_full bs;
       missing := missing bs |}
  else if Py.truthy (find_in_set dep patch_files) then
    {| found_map := found_map bs; found_demo := found_demo bs;
       found_patch := found_patch bs ++ [dep]; found_full := found_full bs;
       missing := missing bs |}
  else if Py.truthy (find_in_set dep full_files) then
    {| found_map := found_map bs; found_demo := found_demo bs;
       found_patch := found_patch bs; found_full := found_full bs ++ [dep];
       missing := missing bs |}
  else
    {| found_map := found_map bs; found_demo := found_demo bs;
       found_patch := found_patch bs; found_full := found_full bs;
       missing := missing bs ++ [dep] |}.

Definition classify_all (deps : gset string) : buckets :=
  foldl classify_dep no_buckets (Py.sorted deps).

End Classification.

(** ** The verdict (lines 207-231) *)

Inductive verdict :=
  | ResultYes                 (* RESULT: YES, playable on demo *)
  | ResultProbably (n : nat)  (* RESULT: PROBABLY, only n asset(s) require full pak0 *)
  | ResultNo (n : nat).       (* RESULT: NO, requires n assets only in full pak0 *)

Definition final_verdict (bs : buckets) : verdict :=
  let count_full := List.length (found_full bs) in
  if (count_full =? 0)%nat then ResultYes
  else if (count_full <=? 5)%nat then ResultProbably count_full
  else ResultNo count_full.

(** ** The script from the loading of the archives on (lines 81-87, 146-231) *)

Definition load_patch_files (fs : gmap string fsnode) : result (gset string) :=
  foldl (fun acc p =>
           bind acc (fun patch_files =>
           bind (load_zip_list fs p) (fun files => Ok (patch_files ∪ files))))
        (Ok ∅) POINT_PAKS.

Definition check_map (z : ZipFile) (demo_files patch_files full_files : gset string)
  : result (buckets * verdict) :=
  bind (gather_deps z) (fun '(deps, map_files) =>
  let texture_folders := get_texture_folders map_files in
  let bs := classify_all texture_folders map_files demo_files patch_files
                         full_files deps in
  Ok (bs, final_verdict bs)).

Definition main (fs : gmap string fsnode) (z : ZipFile)
  : result (buckets * verdict) :=
  bind (load_zip_list fs DEMO_PAK0) (fun demo_files =>
  bind (load_zip_list fs FULL_PAK0) (fun full_files =>
  bind (load_patch_files fs) (fun patch_files =>
  check_map z demo_files patch_files full_files))).

(** ** Vocabulary of the specification *)

(** The five lists of the loop, by name. *)
Inductive bucket :=
  | FoundMap | FoundDemo | FoundPatch | FoundFull | Missing.

Definition bucket_list (b : bucket) (bs : buckets) : list string :=
  match b with
  | FoundMap => found_map bs
  | FoundDemo => found_demo bs
  | FoundPatch => found_patch bs
  | FoundFull => found_full bs
  | Missing => missing bs
  end.

#[global] Instance bucket_eq_dec : EqDecision bucket.
Proof. solve_decision. Defined.

(** A dependency is caught by the ignore filters. *)
Definition ignored (dep : string) : bool :=
  bool_decide (Py.lower dep ∈ IGNORE_TERMS) || should_ignore dep.

(** A dependency can be matched in an index: the format-fallback match
    finds a candidate. *)
Definition matches (dep : string) (s : gset string) : Prop :=
  is_Some (find_in_set dep s).

#[global] Instance matches_dec (dep : string) (s : gset string)
  : Decision (matches dep s).
Proof. unfold matches. apply _. Defined.

(** The list a turn of the loop appends to, [None] when the turn skips. *)
Definition bucket_of_dep (tf mf demo patch full : gset string) (dep : string)
  : option bucket :=
  if ignored dep then None
  else if in_texture_folder tf dep || Py.truthy (find_in_set dep mf)
  then Some FoundMap
  else if Py.truthy (find_in_set dep demo) then Some FoundDemo
  else if Py.truthy (find_in_set dep patch) then Some FoundPatch
  else if Py.truthy (find_in_set dep full) then Some FoundFull
  else Some Missing.

(** A set of strings that does not hold the empty string. *)
Definition no_empty (s : gset string) : Prop := ∀ p, p ∈ s → p ≠ EmptyString.

(** The prefix that a turn of the loop of [get_texture_folders] adds. *)
Definition folder_of (f : string) : option string :=
  if Py.startswith f "textures/" then
    Some ("textures/" +:+ nth 1 (Py.split "/"%char f) EmptyString +:+ "/")
  else None.

(** First member of a set in a list of candidates. *)
Definition first_in (s : gset string) (cands : list string) : option string :=
  List.find (fun c => bool_decide (c ∈ s)) cands.

(** The format-fallback match as the specification words it, on the base
    path as given: no lower-casing takes place. *)
Definition candidates_as_specified (B : string) : list string :=
  if negb (Py.contains_char "."%char (Py.basename B)) then
    [B +:+ ".tga"; B +:+ ".jpg"; B]
  else if Py.endswith B ".tga" then [B; Py.drop_last 4 B +:+ ".jpg"]
  else if Py.endswith B ".jpg" then [B; Py.drop_last 4 B +:+ ".tga"]
  else [B].

Definition find_in_set_as_specified (B : string) (S : gset string)
  : option string :=
  first_in S (candidates_as_specified B).

(** [v] is the keyword [k] written in another letter case. *)
Definition case_variant (v k : string) : Prop :=
  Py.lower v = Py.lower k ∧ v ≠ k.

(** Lower case as a table: the capital letters and, at the same place,
    the small ones. *)
Definition CAPITALS : string := "ABCDEFGHIJKLMNOPQRSTUVWXYZ".
Definition SMALLS : string := "abcdefghijklmnopqrstuvwxyz".

Fixpoint table_lookup (keys values : string) (c : ascii) : option ascii :=
  match keys, values with
  | String k keys', String v values' =>
      if Ascii.eqb c k then Some v else table_lookup keys' values' c
  | _, _ => None
  end.

(** An accented capital: code 192 to 222, but not the multiplication
    sign. *)
Definition accented_capital (c : ascii) : bool :=
  let n := nat_of_ascii c in
  ((192 <=? n) && (n <=? 222) && negb (n =? 215))%nat.

(** The small letter of a capital, and any other character itself; the
    small letter of an accented capital is 32 further. *)
Definition small_letter (c : ascii) : ascii :=
  match table_lookup CAPITALS SMALLS c with
  | Some small => small
  | None =>
      if accented_capital c then ascii_of_nat (nat_of_ascii c + 32) else c
  end.

(** The path [p] is the path [n] in lower case: of the same length, with
    the small letter for every capital and every other character as it
    is. *)
Fixpoint lower_cased (n p : string) : bool :=
  match n, p with
  | EmptyString, EmptyString => true
  | String c n', String c' p' =>
      Ascii.eqb c' (small_letter c) && lower_cased n' p'
  | _, _ => false
  end.

(** A capital letter, plain or accented. *)
Definition capital (c : ascii) : bool :=
  Py.contains_char c CAPITALS || accented_capital c.

Definition all_chars (p : ascii -> bool) (s : string) : bool :=
  forallb p (list_ascii_of_string s).

(** The text [s] holds the text [pat] somewhere. *)
Fixpoint has_substr (pat s : string) : bool :=
  Py.startswith s pat
  || match s with
     | EmptyString => false
     | String _ s' => has_substr pat s'
     end.

(** The text [rest] is empty or starts with a character that fails [p]. *)
Definition stops (p : ascii -> bool) (rest : string) : bool :=
  match rest with
  | EmptyString => true
  | String a _ => negb (p a)
  end.

(** The character before the end of [pre], and [prev] when [pre] is
    empty. *)
Fixpoint char_before (prev : option ascii) (pre : string) : option ascii :=
  match pre with
  | EmptyString => prev
  | String c pre' => char_before (Some c) pre'
  end.

(** The text [s] holds, after [pre], a directive as the pattern has it: a
    keyword [cmd] letter for letter that does not continue a word, the
    white space [ws], and the token [path] up to the next white space or
    the end of the text. *)
Definition exact_directive (s pre cmd ws path post : string) : Prop :=
  s = pre +:+ cmd +:+ ws +:+ path +:+ post
  ∧ In cmd Re.KEYWORDS
  ∧ Re.is_word_opt (char_before None pre) = false
  ∧ ws ≠ EmptyString
  ∧ all_chars Re.is_space ws = true
  ∧ path ≠ EmptyString
  ∧ all_chars (λ c, negb (Re.is_space c)) path = true
  ∧ match post with
    | EmptyString => True
    | String b _ => Re.is_space b = true
    end.

(** A character with a code from 1 to 127. *)
Definition name_char (c : ascii) : bool :=
  let n := nat_of_ascii c in ((1 <=? n) && (n <=? 127))%nat.

(** ** Sample archives *)

Module Sample.

Definition byte_of_Z (n : Z) : Byte.byte :=
  match Byte.of_N (Z.to_N (n mod 256)) with
  | Some b => b
  | None => Byte.x00
  end.

Definition le32 (n : Z) : list Byte.byte :=
  [ byte_of_Z n; byte_of_Z (n / 256); byte_of_Z (n / 65536);
    byte_of_Z (n / 16777216) ].

Definition padded (n : nat) (b : list Byte.byte) : list Byte.byte :=
  take n (b ++ repeat Byte.x00 n).

Definition texture_record (name : string) : list Byte.byte :=
  padded 64 (String.list_byte_of_string name) ++ repeat Byte.x00 8.

(** A BSP file with the given entity text and texture names: magic,
    version, 17 directory entries, the texture records, the entities. *)
Definition bsp (entities : string) (names : list string) : list Byte.byte :=
  let tex := List.concat (List.map texture_record names) in
  let ents := String.list_byte_of_string entities in
  Bytes.IBSP ++ le32 46
    ++ le32 (144 + Z.of_nat (List.length tex)) ++ le32 (Z.of_nat (List.length ents))
    ++ le32 144 ++ le32 (Z.of_nat (List.length tex))
    ++ repeat Byte.x00 (15 * 8)
    ++ tex ++ ents.

Definition archive (entries : list (string * list Byte.byte)) : ZipFile :=
  {| namelist := List.map fst entries;
     read := fun name =>
       match List.find (fun e => String.eqb (fst e) name) entries with
       | Some e => Some (snd e)
       | None => None
       end |}.

(** A map whose BSP names the texture textures/foo/bar and which ships
    textures/foo/bar.jpg itself. *)
Definition scenario_a : ZipFile :=
  archive [ ("maps/a.bsp", bsp EmptyString ["textures/foo/bar"]);
            ("textures/foo/bar.jpg", []) ].

(** A map whose BSP names two textures and that ships neither. *)
Definition plain_map : ZipFile :=
  archive [ ("maps/a.bsp",
             bsp EmptyString ["textures/base/wall"; "Textures/Common/caulk"]) ].

(** A map with a shader script whose name is in upper case and which
    writes one directive as [Map] and one as [map]. *)
Definition shader_map : ZipFile :=
  archive [ ("maps/a.bsp", bsp EmptyString []);
            ("Scripts/Sky.SHADER",
             String.list_byte_of_string
               "Map textures/sky/up.tga map textures/sky/down.tga") ].

(** A text between double quotes. *)
Definition quoted (s : string) : string :=
  String Re.dquote s +:+ String Re.dquote EmptyString.

(** An entity text with a model file and an inline brush model. *)
Definition entity_text : list Byte.byte :=
  String.list_byte_of_string
    (quoted "model" +:+ " " +:+ quoted "models/a.md3" +:+ " "
     +:+ quoted "model2" +:+ " " +:+ quoted "*3").

(** An archive whose only BSP entry stops after the magic. *)
Definition truncated_bsp : ZipFile :=
  archive [ ("maps/a.bsp", Bytes.IBSP) ].

(** An archive with a sound BSP entry and a shader script that cannot be
    read. *)
Definition unreadable_shader : ZipFile :=
  {| namelist := ["maps/a.bsp"; "scripts/a.shader"];
     read := fun name =>
       if String.eqb name "maps/a.bsp" then Some (bsp EmptyString [])
       else None |}.

(** An archive whose entries have capital letters in their names. *)
Definition capital_names : ZipFile :=
  archive [ ("Maps/A.BSP", bsp EmptyString []);
            ("Textures/Foo/Bar.JPG", []) ].

(** The bytes of a script with a no-break space, C2 A0 in UTF-8, between
    the keyword and the path. *)
Definition no_break_space_script : list Byte.byte :=
  List.map byte_of_Z
    [109; 97; 112; 194; 160;
     116; 101; 120; 116; 117; 114; 101; 115; 47; 120; 46; 116; 103; 97].

End Sample.

(** * Properties *)

(** ** Strings *)

Section StringFacts.

Lemma app_cons (c : ascii) (s t : string) :
  String c s +:+ t = String c (s +:+ t).
Proof. reflexivity. Qed.

Lemma app_empty_l (t : string) : EmptyString +:+ t = t.
Proof. reflexivity. Qed.

Lemma app_empty_r (s : string) : s +:+ EmptyString = s.
Proof. induction s as [|c s IH]; [reflexivity|]. by rewrite app_cons, IH. Qed.

Lemma app_assoc_str (s t u : string) : (s +:+ t) +:+ u = s +:+ (t +:+ u).
Proof. induction s as [|c s IH]; [reflexivity|]. by rewrite !app_cons, IH. Qed.

Lemma length_app_str (s t : string) :
  String.length (s +:+ t) = (String.length s + String.length t)%nat.
Proof. induction s as [|c s IH]; [reflexivity|]. rewrite app_cons. simpl. by rewrite IH. Qed.

Lemma lower_char_idem (c : ascii) :
  Py.lower_char (Py.lower_char c) = Py.lower_char c.
Proof. destruct c as [[] [] [] [] [] [] [] []]; reflexivity. Qed.

Lemma lower_idem (s : string) : Py.lower (Py.lower s) = Py.lower s.
Proof.
  induction s as [|c s IH]; [reflexivity|].
  simpl. by rewrite lower_char_idem, IH.
Qed.

Lemma lower_app (s t : string) :
  Py.lower (s +:+ t) = Py.lower s +:+ Py.lower t.
Proof.
  induction s as [|c s IH]; [reflexivity|].
  rewrite app_cons. simpl. by rewrite IH.
Qed.

Lemma lower_length (s : string) : String.length (Py.lower s) = String.length s.
Proof. induction s as [|c s IH]; [reflexivity|]. simpl. by rewrite IH. Qed.

Lemma startswith_iff (s pre : string) :
  Py.startswith s pre = true ↔ ∃ r, s = pre +:+ r.
Proof.
  revert s. induction pre as [|a pre IH]; intros s.
  - split; [intros _; by exists s | by destruct s].
  - destruct s as [|b s]; simpl.
    + split; [done | intros [r Hr]; discriminate Hr].
    + rewrite andb_true_iff, Ascii.eqb_eq, IH. split.
      * intros [-> [r ->]]. by exists r.
      * intros [r Hr]. rewrite app_cons in Hr. injection Hr as -> ->. eauto.
Qed.

Lemma startswith_app (pre r : string) : Py.startswith (pre +:+ r) pre = true.
Proof. apply startswith_iff. by exists r. Qed.

Lemma drop_str_app (s t : string) : Py.drop_str (String.length s) (s +:+ t) = t.
Proof. induction s as [|c s IH]; [by destruct t|]. by rewrite app_cons. Qed.

Lemma take_str_app (s t : string) : Py.take_str (String.length s) (s +:+ t) = s.
Proof.
  induction s as [|c s IH]; [by destruct t|].
  rewrite app_cons. simpl. by rewrite IH.
Qed.

Lemma take_drop_str (n : nat) (s : string) :
  Py.take_str n s +:+ Py.drop_str n s = s.
Proof.
  revert s. induction n as [|n IH]; intros [|c s]; try reflexivity.
  simpl. by rewrite app_cons, IH.
Qed.

(** Against a suffix of the same length, [endswith] compares the suffixes. *)
Lemma endswith_app (stem suf suf' : string) :
  String.length suf' = String.length suf →
  Py.endswith (stem +:+ suf') suf = String.eqb suf' suf.
Proof.
  intros Hlen. unfold Py.endswith. rewrite length_app_str, Hlen.
  replace (String.length stem + String.length suf - String.length suf)%nat
    with (String.length stem) by lia.
  rewrite drop_str_app.
  destruct (Nat.leb_spec (String.length suf)
              (String.length stem + String.length suf)); [done | lia].
Qed.

Lemma endswith_iff (s suf : string) :
  Py.endswith s suf = true ↔ ∃ stem, s = stem +:+ suf.
Proof.
  split.
  - unfold Py.endswith. rewrite andb_true_iff, String.eqb_eq.
    intros [_ Hd].
    exists (Py.take_str (String.length s - String.length suf) s).
    etrans; [symmetry; apply (take_drop_str (String.length s - String.length suf)) |].
    f_equal. exact Hd.
  - intros [stem ->]. rewrite endswith_app by done. apply String.eqb_refl.
Qed.

Lemma drop_last_app (stem suf : string) :
  Py.drop_last (String.length suf) (stem +:+ suf) = stem.
Proof.
  unfold Py.drop_last. rewrite length_app_str.
  replace (String.length stem + String.length suf - String.length suf)%nat
    with (String.length stem) by lia.
  apply take_str_app.
Qed.

Lemma split_nonempty (sep : ascii) (s : string) : Py.split sep s ≠ [].
Proof.
  destruct s as [|c s]; [done|]. simpl.
  destruct (Ascii.eqb c sep); [done|]. by destruct (Py.split sep s).
Qed.

Lemma contains_char_app (c : ascii) (s t : string) :
  Py.contains_char c (s +:+ t) = Py.contains_char c s || Py.contains_char c t.
Proof.
  induction s as [|a s IH]; [reflexivity|].
  rewrite app_cons. simpl. by rewrite IH, orb_assoc.
Qed.

(** Appending a text without separator extends the last piece. *)
Lemma split_app_last (sep : ascii) (stem suf : string) :
  Py.contains_char sep suf = false →
  ∃ init lst, Py.split sep stem = init ++ [lst]
              ∧ Py.split sep (stem +:+ suf) = init ++ [lst +:+ suf].
Proof.
  intros Hsuf. induction stem as [|c stem (init & lst & Hs & Happ)].
  - exists [], EmptyString. split; [done|]. rewrite app_empty_l. simpl.
    induction suf as [|a suf IH]; [done|].
    simpl in Hsuf. apply orb_false_iff in Hsuf as [Ha Hsuf].
    simpl. rewrite Ha, (IH Hsuf). done.
  - rewrite app_cons. simpl. destruct (Ascii.eqb c sep).
    + exists (EmptyString :: init), lst. by rewrite Hs, Happ.
    + rewrite Hs, Happ. destruct init as [|p q].
      * by exists [], (String c lst).
      * by exists (String c p :: q), lst.
Qed.

(** A suffix that holds a dot and no slash puts a dot in the basename. *)
Lemma basename_dot_suffix (stem suf : string) :
  Py.contains_char "."%char suf = true →
  Py.contains_char "/"%char suf = false →
  Py.contains_char "."%char (Py.basename (stem +:+ suf)) = true.
Proof.
  intros Hdot Hslash. unfold Py.basename.
  destruct (split_app_last "/"%char stem suf Hslash) as (init & lst & _ & ->).
  rewrite List.last_last, contains_char_app, Hdot. apply orb_true_r.
Qed.

End StringFacts.

(** ** The verdict *)



(** ** The archive index *)

Lemma elem_of_lower_names (z : ZipFile) (p : string) :
  p ∈ lower_names z ↔ ∃ n, n ∈ namelist z ∧ p = Py.lower n.
Proof.
  unfold lower_names. rewrite elem_of_list_to_set, list_elem_of_In, in_map_iff.
  split; intros (n & H1 & H2); exists n; rewrite ?list_elem_of_In in *; auto.
Qed.

(** The table of the small letters agrees with [lower], character by
    character. *)
Lemma small_letter_lower_char (c : ascii) : small_letter c = Py.lower_char c.
Proof. destruct c as [[] [] [] [] [] [] [] []]; reflexivity. Qed.

Lemma lower_cased_iff (n p : string) :
  lower_cased n p = true ↔ p = Py.lower n.
Proof.
  revert p. induction n as [|c n IH]; intros [|c' p]; simpl; try done.
  rewrite andb_true_iff, IH, small_letter_lower_char. split.
  - intros [->%Ascii.eqb_eq ->]. done.
  - intros [= -> ->]. by rewrite Ascii.eqb_refl.
Qed.

Lemma lower_char_no_capital (c : ascii) : capital (Py.lower_char c) = false.
Proof. destruct c as [[] [] [] [] [] [] [] []]; reflexivity. Qed.

Lemma lower_no_capital (n : string) :
  all_chars (λ c, negb (capital c)) (Py.lower n) = true.
Proof.
  unfold all_chars. induction n as [|c n IH]; [done|]. simpl.
  by rewrite lower_char_no_capital, IH.
Qed.

(** C8: for a path that holds no file the index is the empty set, without
    error; for a path that holds an archive the index is the set of the
    lower-cased names of its entries, and every path of it is in lower
    case.  Lower case is that of [lower], and it is that of the table of
    the letters: a path is in the index exactly when it is the name of an
    entry with the small letter at the place of every capital and every
    other character unchanged, and no path of the index holds a capital.
    The entries [Maps/A.BSP] and [Textures/Foo/Bar.JPG] are indexed as
    [maps/a.bsp] and [textures/foo/bar.jpg], and not as they are
    written. *)
Theorem load_zip_list_index (fs : gmap string fsnode) (P : string) :
  (fs !! P = None → load_zip_list fs P = Ok ∅)
  ∧ (∀ z, fs !! P = Some (FsZip z) →
       ∃ index, load_zip_list fs P = Ok index
         ∧ (∀ p, p ∈ index ↔ ∃ n, n ∈ namelist z ∧ p = Py.lower n)
         ∧ (∀ p, p ∈ index → Py.lower p = p)
         ∧ (∀ p, p ∈ index ↔ ∃ n, n ∈ namelist z ∧ lower_cased n p = true)
         ∧ (∀ p, p ∈ index → all_chars (λ c, negb (capital c)) p = true))
  ∧ load_zip_list {[ "baseq3/pak0.pk3" := FsZip Sample.capital_names ]}
                  "baseq3/pak0.pk3"
    = Ok {[ "maps/a.bsp"; "textures/foo/bar.jpg" ]}
  ∧ "Maps/A.BSP" ∉ ({[ "maps/a.bsp"; "textures/foo/bar.jpg" ]} : gset string).
Proof.
  unfold load_zip_list. split; [|split; [|split]].
  - intros ->. reflexivity.
  - intros z ->. exists (lower_names z). split; [reflexivity|].
    split; [|split; [|split]].
    + apply elem_of_lower_names.
    + intros p (n & _ & ->)%elem_of_lower_names. apply lower_idem.
    + intros p. rewrite elem_of_lower_names.
      split; intros (n & Hn & Hp); exists n; (split; [done|]);
        by apply lower_cased_iff.
    + intros p (n & _ & ->)%elem_of_lower_names. apply lower_no_capital.
  - vm_compute. reflexivity.
  - intros [H | H%elem_of_singleton]%elem_of_union;
      [apply elem_of_singleton in H|]; discriminate H.
Qed.

Lemma load_zip_list_index_witness :
  load_zip_list {[ "baseq3/pak0-demo.pk3" := FsZip Sample.scenario_a ]}
                "baseq3/pak1.pk3" = Ok ∅
  ∧ ∃ index,
      load_zip_list {[ "baseq3/pak0.pk3" := FsZip Sample.capital_names ]}
                    "baseq3/pak0.pk3" = Ok index
      ∧ "maps/a.bsp" ∈ index
      ∧ "Maps/A.BSP" ∉ index.
Proof.
  split.
  - apply (load_zip_list_index
             {[ "baseq3/pak0-demo.pk3" := FsZip Sample.scenario_a ]}
             "baseq3/pak1.pk3").
    reflexivity.
  - assert (Hfile : ({[ "baseq3/pak0.pk3" := FsZip Sample.capital_names ]}
                       : gmap string fsnode) !! "baseq3/pak0.pk3"
                    = Some (FsZip Sample.capital_names)) by reflexivity.
    destruct (proj1 (proj2 (load_zip_list_index
                {[ "baseq3/pak0.pk3" := FsZip Sample.capital_names ]}
                "baseq3/pak0.pk3")) Sample.capital_names Hfile)
      as (index & Hload & _ & _ & Hin & Hsmall).
    exists index. split; [exact Hload|]. split.
    + apply Hin. exists "Maps/A.BSP". split; [|reflexivity].
      apply list_elem_of_here.
    + intros H. apply Hsmall in H. discriminate H.
Defined.

(** ** The format-fallback match *)

Lemma find_in_set_first_in (B : string) (S : gset string) :
  find_in_set B S = first_in S (candidates B).
Proof. reflexivity. Qed.

Lemma candidates_suffix (B stem suf other : string) :
  Py.lower B = stem +:+ suf →
  String.length suf = 4%nat →
  Py.contains_char "."%char suf = true →
  Py.contains_char "/"%char suf = false →
  (suf = ".tga" ∧ other = ".jpg") ∨ (suf = ".jpg" ∧ other = ".tga") →
  candidates B = [stem +:+ suf; stem +:+ other].
Proof.
  intros Hlow Hlen Hdot Hslash Hcase. unfold candidates. rewrite Hlow.
  rewrite (basename_dot_suffix stem suf Hdot Hslash). simpl negb. cbv iota.
  rewrite !endswith_app by (destruct Hcase as [[-> _]|[-> _]]; reflexivity).
  rewrite <- Hlen, drop_last_app.
  destruct Hcase as [[-> ->]|[-> ->]]; reflexivity.
Qed.

(** C2, as the code has it: the candidates are built from the lower-cased
    base path [low].  When the filename of [low] holds no dot they are
    [low.tga], [low.jpg], [low]; when [low] ends in [.tga] they are [low] and
    [low] with [.jpg] for [.tga]; when [low] ends in [.jpg] they are [low]
    and [low] with [.tga] for [.jpg]; for any other extension [low] alone.
    The first candidate that is a member of the set is returned, and
    [sound/x.wav] is not found in a set that holds only [sound/x.ogg]. *)
Theorem find_in_set_candidates (B : string) (S : gset string) :
  let low := Py.lower B in
  (Py.contains_char "."%char (Py.basename low) = false →
     find_in_set B S = first_in S [low +:+ ".tga"; low +:+ ".jpg"; low])
  ∧ (∀ stem, low = stem +:+ ".tga" →
       find_in_set B S = first_in S [stem +:+ ".tga"; stem +:+ ".jpg"])
  ∧ (∀ stem, low = stem +:+ ".jpg" →
       find_in_set B S = first_in S [stem +:+ ".jpg"; stem +:+ ".tga"])
  ∧ (Py.contains_char "."%char (Py.basename low) = true →
     Py.endswith low ".tga" = false → Py.endswith low ".jpg" = false →
       find_in_set B S = first_in S [low])
  ∧ find_in_set B S = find_in_set_as_specified low S
  ∧ find_in_set "sound/x.wav" {[ "sound/x.ogg" ]} = None.
Proof.
  intros low. rewrite find_in_set_first_in. repeat split.
  - intros Hdot. unfold candidates. fold low. by rewrite Hdot.
  - intros stem Hlow. f_equal. by apply candidates_suffix; auto.
  - intros stem Hlow. f_equal. by apply candidates_suffix; auto.
  - intros Hdot Htga Hjpg. unfold candidates. fold low.
    by rewrite Hdot, Htga, Hjpg.
Qed.

Lemma find_in_set_candidates_witness :
  find_in_set "Textures/Foo/Bar.TGA" {[ "textures/foo/bar.jpg" ]}
  = first_in {[ "textures/foo/bar.jpg" ]}
             ["textures/foo/bar" +:+ ".tga"; "textures/foo/bar" +:+ ".jpg"].
Proof.
  exact (proj1 (proj2 (find_in_set_candidates "Textures/Foo/Bar.TGA"
                         {[ "textures/foo/bar.jpg" ]}))
               "textures/foo/bar" eq_refl).
Defined.

(** C2 as stated does not hold: on the base path [Foo] and the set that
    holds [foo.tga], the candidates [Foo.tga], [Foo.jpg], [Foo] of the
    statement find nothing, and the code returns [foo.tga]. *)
Lemma find_in_set_not_as_specified :
  find_in_set_as_specified "Foo" {[ "foo.tga" ]} = None
  ∧ find_in_set "Foo" {[ "foo.tga" ]} = Some "foo.tga".
Proof. split; reflexivity. Qed.

(** ** Loops that grow a set *)

Lemma elem_of_add_if (b : bool) (acc : gset string) (x p : string) :
  p ∈ (if b then acc ∪ {[ x ]} else acc)
  ↔ p ∈ acc ∨ (if b then Some x else None) = Some p.
Proof.
  destruct b.
  - rewrite elem_of_union, elem_of_singleton.
    split; (intros [H | H]; [by left | right; congruence]).
  - split; [by left | by intros [H | H]].
Qed.

Section SetLoops.

Context {A : Type}.

(** A loop whose turn adds at most one string, [pick x], to the set. *)
Lemma elem_of_foldl_pick (f : gset string → A → gset string)
    (pick : A → option string) :
  (∀ acc x p, p ∈ f acc x ↔ p ∈ acc ∨ pick x = Some p) →
  ∀ l acc p,
    p ∈ foldl f acc l ↔ p ∈ acc ∨ ∃ x, x ∈ l ∧ pick x = Some p.
Proof.
  intros Hf l. induction l as [|x l IH]; intros acc p; simpl.
  - split; [auto | intros [H | (x & Hx & _)]; [done | by inversion Hx]].
  - rewrite IH, Hf. split.
    + intros [[H | H] | (y & Hy & Hp)]; [by left | right; exists x | right; exists y].
      * split; [constructor | done].
      * split; [by constructor | done].
    + intros [H | (y & Hy & Hp)]; [by left; left |].
      apply elem_of_cons in Hy as [-> | Hy]; [by left; right |].
      right. by exists y.
Qed.

(** A property of the elements that every turn preserves. *)
Lemma foldl_preserves {S : Type} (I : S → Prop) (f : S → A → S) :
  (∀ acc x, I acc → I (f acc x)) →
  ∀ l acc, I acc → I (foldl f acc l).
Proof.
  intros Hf l. induction l as [|x l IH]; intros acc Hacc; simpl; auto.
Qed.

End SetLoops.

(** ** The texture-folder index *)

Lemma split_textures (r : string) :
  Py.split "/"%char ("textures/" +:+ r) = "textures" :: Py.split "/"%char r.
Proof. reflexivity. Qed.

(** The test on the number of pieces never fails under [textures/]. *)
Lemma split_textures_length (f : string) :
  Py.startswith f "textures/" = true →
  (1 <? List.length (Py.split "/"%char f))%nat = true.
Proof.
  intros [r ->]%startswith_iff. rewrite split_textures.
  pose proof (split_nonempty "/"%char r).
  destruct (Py.split "/"%char r); [done | reflexivity].
Qed.

Lemma elem_of_add_folder (folders : gset string) (f p : string) :
  p ∈ add_folder folders f ↔ p ∈ folders ∨ folder_of f = Some p.
Proof.
  unfold add_folder, folder_of.
  destruct (Py.startswith f "textures/") eqn:Hs.
  - rewrite (split_textures_length f Hs). apply (elem_of_add_if true).
  - apply (elem_of_add_if false _ EmptyString).
Qed.

(** The index holds one prefix for every path under [textures/]: the first
    piece of the path after [textures/], between slashes. *)
Lemma elem_of_get_texture_folders (map_files : gset string) (p : string) :
  p ∈ get_texture_folders map_files ↔
  ∃ r, "textures/" +:+ r ∈ map_files
       ∧ p = "textures/" +:+ hd EmptyString (Py.split "/"%char r) +:+ "/".
Proof.
  unfold get_texture_folders.
  rewrite (elem_of_foldl_pick add_folder folder_of elem_of_add_folder).
  split.
  - intros [H | (f & Hf & Hp)]; [set_solver|].
    apply elem_of_elements in Hf. unfold folder_of in Hp.
    destruct (Py.startswith f "textures/") eqn:Hs; [|done].
    apply startswith_iff in Hs as [r ->]. exists r. split; [done|].
    rewrite split_textures in Hp. simpl nth in Hp.
    destruct (Py.split "/"%char r); by injection Hp as <-.
  - intros (r & Hr & ->). right. exists ("textures/" +:+ r).
    split; [by apply elem_of_elements|].
    unfold folder_of. rewrite startswith_app, split_textures. simpl nth.
    by destruct (Py.split "/"%char r).
Qed.

(** A file that lies directly under [textures/] yields a prefix too. *)
Lemma direct_file_yields_prefix (map_files : gset string) (name : string) :
  Py.contains_char "/"%char name = false →
  "textures/" +:+ name ∈ map_files →
  "textures/" +:+ name +:+ "/" ∈ get_texture_folders map_files.
Proof.
  intros Hname Hin. apply elem_of_get_texture_folders. exists name.
  split; [done|].
  destruct (split_app_last "/"%char EmptyString name Hname)
    as (init & lst & Hs & Happ).
  rewrite app_empty_l in Happ. rewrite Happ.
  simpl in Hs. destruct init as [|? [|]]; [|done..].
  simpl in Hs. injection Hs as <-. reflexivity.
Qed.

(** C3, on the archive that holds the one file [textures/foo.jpg], directly
    under [textures/]: the index holds the prefix [textures/foo.jpg/],
    which is the prefix of no subfolder of the archive. *)
Theorem get_texture_folders_direct_file_prefix :
  get_texture_folders {[ "textures/foo.jpg" ]} = {[ "textures/foo.jpg/" ]}.
Proof. vm_compute. reflexivity. Qed.

(** ** The classification loop *)

Section Loop.

Variables tf mf demo patch full : gset string.

(** One turn appends the dependency to the list named by
    [bucket_of_dep], and to no other. *)
Lemma classify_dep_bucket_list (bs : buckets) (dep : string) (b : bucket) :
  bucket_list b (classify_dep tf mf demo patch full bs dep)
  = bucket_list b bs
    ++ (if decide (bucket_of_dep tf mf demo patch full dep = Some b)
        then [dep] else []).
Proof.
  unfold classify_dep, bucket_of_dep, ignored.
  destruct (bool_decide (Py.lower dep ∈ IGNORE_TERMS));
    [by rewrite decide_False, app_nil_r|].
  destruct (should_ignore dep); [by rewrite decide_False, app_nil_r|].
  simpl orb. cbv iota.
  destruct (in_texture_folder tf dep); simpl orb; cbv iota;
    [destruct b; simpl; by rewrite ?app_nil_r|].
  destruct (Py.truthy (find_in_set dep mf));
    [destruct b; simpl; by rewrite ?app_nil_r|].
  destruct (Py.truthy (find_in_set dep demo));
    [destruct b; simpl; by rewrite ?app_nil_r|].
  destruct (Py.truthy (find_in_set dep patch));
    [destruct b; simpl; by rewrite ?app_nil_r|].
  destruct (Py.truthy (find_in_set dep full));
    destruct b; simpl; by rewrite ?app_nil_r.
Qed.

Lemma foldl_classify_bucket_list (l : list string) (bs : buckets) (b : bucket) :
  bucket_list b (foldl (classify_dep tf mf demo patch full) bs l)
  = bucket_list b bs
    ++ filter (λ d, bucket_of_dep tf mf demo patch full d = Some b) l.
Proof.
  revert bs. induction l as [|d l IH]; intros bs; simpl.
  - by rewrite app_nil_r.
  - rewrite IH, classify_dep_bucket_list, filter_cons.
    destruct (decide (bucket_of_dep tf mf demo patch full d = Some b));
      by rewrite <- app_assoc.
Qed.

Lemma sorted_perm (deps : gset string) : Py.sorted deps ≡ₚ elements deps.
Proof. apply merge_sort_Permutation. Qed.

Lemma classify_all_bucket_list (deps : gset string) (b : bucket) :
  bucket_list b (classify_all tf mf demo patch full deps)
  = filter (λ d, bucket_of_dep tf mf demo patch full d = Some b)
           (Py.sorted deps).
Proof.
  unfold classify_all. rewrite foldl_classify_bucket_list. by destruct b.
Qed.

(** A dependency is in a list exactly when the set holds it and its turn
    of the loop names that list. *)
Lemma elem_of_classify_all (deps : gset string) (dep : string) (b : bucket) :
  dep ∈ bucket_list b (classify_all tf mf demo patch full deps)
  ↔ dep ∈ deps ∧ bucket_of_dep tf mf demo patch full dep = Some b.
Proof.
  rewrite classify_all_bucket_list, list_elem_of_filter, sorted_perm.
  rewrite elem_of_elements. tauto.
Qed.

(** No list holds a dependency twice. *)
Lemma NoDup_classify_all (deps : gset string) (b : bucket) :
  NoDup (bucket_list b (classify_all tf mf demo patch full deps)).
Proof.
  rewrite classify_all_bucket_list. apply NoDup_filter.
  rewrite sorted_perm. apply NoDup_elements.
Qed.

End Loop.

Lemma ignored_true_iff (dep : string) :
  ignored dep = true ↔
  Py.lower dep ∈ IGNORE_TERMS
  ∨ ∃ pre, pre ∈ IGNORE_PATHS ∧ Py.startswith (Py.lower dep) pre = true.
Proof.
  unfold ignored, should_ignore.
  rewrite orb_true_iff, bool_decide_eq_true, existsb_exists.
  split; (intros [H | (pre & Hpre & Hs)]; [by left | right; exists pre]);
    by rewrite ?list_elem_of_In in *.
Qed.

(** C7: a dependency whose lower-cased form is one of the ignore terms, or
    starts with one of the ignored paths, is in none of the five lists,
    whatever the texture folders and the four indices hold; so for
    [Textures/Common/caulk]. *)
Theorem ignored_dependency_in_no_bucket
    (tf mf demo patch full deps : gset string) (dep : string) :
  (Py.lower dep ∈ IGNORE_TERMS
   ∨ ∃ pre, pre ∈ IGNORE_PATHS ∧ Py.startswith (Py.lower dep) pre = true) →
  ∀ b, dep ∉ bucket_list b (classify_all tf mf demo patch full deps).
Proof.
  intros Hign%ignored_true_iff b [_ Hb]%elem_of_classify_all.
  unfold bucket_of_dep in Hb. by rewrite Hign in Hb.
Qed.

Lemma ignored_dependency_in_no_bucket_witness :
  "Textures/Common/caulk"
    ∉ bucket_list FoundMap
        (classify_all {[ "textures/common/" ]} {[ "textures/common/caulk.tga" ]}
                      {[ "textures/common/caulk.tga" ]} ∅ ∅
                      {[ "Textures/Common/caulk" ]}).
Proof.
  apply (ignored_dependency_in_no_bucket
           {[ "textures/common/" ]} {[ "textures/common/caulk.tga" ]}
           {[ "textures/common/caulk.tga" ]} ∅ ∅ {[ "Textures/Common/caulk" ]}
           "Textures/Common/caulk").
  right. exists "textures/common/". split; [| reflexivity].
  unfold IGNORE_PATHS. apply list_elem_of_here.
Defined.

Lemma in_texture_folder_iff (tf : gset string) (dep : string) :
  in_texture_folder tf dep = true
  ↔ ∃ folder, folder ∈ tf ∧ Py.startswith (Py.lower dep) folder = true.
Proof.
  unfold in_texture_folder. rewrite existsb_exists.
  split; intros (folder & Hf & Hs); exists folder;
    by rewrite <- ?list_elem_of_In, ?elem_of_elements in *.
Qed.

(** C4: a dependency that the ignore filters let through and whose
    lower-cased path starts with a texture-folder prefix is put in the
    found-in-map list and in no other, whatever the map index and the other
    indices hold: no lookup in an index takes part.  In the sample map whose
    BSP names [textures/foo/bar] and which ships [textures/foo/bar.jpg],
    the prefix [textures/foo/] is derived and the texture is found in the
    map. *)
Theorem texture_folder_shortcut
    (tf mf demo patch full deps : gset string) (dep : string) :
  dep ∈ deps →
  ignored dep = false →
  (∃ folder, folder ∈ tf ∧ Py.startswith (Py.lower dep) folder = true) →
  let bs := classify_all tf mf demo patch full deps in
  dep ∈ found_map bs
  ∧ (∀ b, dep ∈ bucket_list b bs → b = FoundMap)
  ∧ get_texture_folders (lower_names Sample.scenario_a) = {[ "textures/foo/" ]}
  ∧ check_map Sample.scenario_a ∅ ∅ ∅
    = Ok ({| found_map := ["textures/foo/bar"]; found_demo := [];
             found_patch := []; found_full := []; missing := [] |},
          ResultYes).
Proof.
  intros Hin Hign Hfolder%in_texture_folder_iff bs.
  assert (Hb : bucket_of_dep tf mf demo patch full dep = Some FoundMap).
  { unfold bucket_of_dep. by rewrite Hign, Hfolder. }
  split; [|split; [|split]].
  - by apply (elem_of_classify_all tf mf demo patch full deps dep FoundMap).
  - intros b [_ Hb']%elem_of_classify_all. congruence.
  - vm_compute. reflexivity.
  - vm_compute. reflexivity.
Qed.

Lemma texture_folder_shortcut_witness :
  "textures/foo/bar"
    ∈ found_map (classify_all {[ "textures/foo/" ]} ∅ ∅ ∅ ∅
                              {[ "textures/foo/bar" ]}).
Proof.
  apply (texture_folder_shortcut {[ "textures/foo/" ]} ∅ ∅ ∅ ∅
           {[ "textures/foo/bar" ]} "textures/foo/bar").
  - apply elem_of_singleton. reflexivity.
  - reflexivity.
  - exists "textures/foo/". split; [apply elem_of_singleton|]; reflexivity.
Defined.

(** ** What [gather_deps] returns *)

Lemma gather_deps_ok_inv (z : ZipFile) (deps map_files : gset string) :
  gather_deps z = Ok (deps, map_files) →
  ∃ bsp rest data lumps shader_deps,
    List.filter is_bsp_name (namelist z) = bsp :: rest
    ∧ read z bsp = Some data
    ∧ Bytes.eqb (Py.slice data 0 4) Bytes.IBSP = true
    ∧ read_lumps data = Some lumps
    ∧ gather_shaders z = Ok shader_deps
    ∧ deps = gather_textures data (nth 1 lumps (0, 0)).1 (nth 1 lumps (0, 0)).2
             ∪ gather_entities data (nth 0 lumps (0, 0)).1 (nth 0 lumps (0, 0)).2
             ∪ shader_deps
    ∧ map_files = lower_names z.
Proof.
  unfold gather_deps.
  destruct (List.filter is_bsp_name (namelist z)) as [|bsp rest]; [done|].
  destruct (read z bsp) as [data|] eqn:Hread; [|done].
  destruct (Bytes.eqb (Py.slice data 0 4) Bytes.IBSP) eqn:Hmagic; [|done].
  simpl negb. cbv iota.
  destruct (read_lumps data) as [lumps|] eqn:Hlumps; [|done].
  destruct (nth 1 lumps (0, 0)) as [off1 length1] eqn:H1.
  destruct (nth 0 lumps (0, 0)) as [off0 length0] eqn:H0.
  destruct (gather_shaders z) as [shader_deps|e] eqn:Hsh; [|done].
  intros [= <- <-]. exists bsp, rest, data, lumps, shader_deps.
  by rewrite H1, H0.
Qed.

(** The loop over the scripts: once it has failed it stays failed, and
    what holds of the empty set and is kept by the scan of one text holds
    of its result. *)
Lemma scan_shader_files_Err (z : ZipFile) (e : error) (l : list string) :
  foldl (scan_shader_file z) (Err e) l = Err e.
Proof. induction l as [|f l IH]; [done|]. simpl. apply IH. Qed.

Lemma scan_shader_files_preserves (I : gset string → Prop) (z : ZipFile)
  (l : list string) (acc shader_deps : gset string) :
  (∀ acc text, I acc → I (scan_shader_text acc text)) →
  I acc →
  foldl (scan_shader_file z) (Ok acc) l = Ok shader_deps →
  I shader_deps.
Proof.
  intros Hstep. revert acc.
  induction l as [|f l IH]; intros acc Hacc; simpl.
  - by intros [= <-].
  - destruct (read z f) as [raw|].
    + apply IH. by apply Hstep.
    + by rewrite scan_shader_files_Err.
Qed.

Lemma scan_shader_files_result (z : ZipFile) (l : list string)
  (acc : gset string) :
  ((∃ shader_deps, foldl (scan_shader_file z) (Ok acc) l = Ok shader_deps)
   ∧ ∀ f, f ∈ l → read z f ≠ None)
  ∨ (foldl (scan_shader_file z) (Ok acc) l = Err ReadError
     ∧ ∃ f, f ∈ l ∧ read z f = None).
Proof.
  revert acc. induction l as [|f l IH]; intros acc; simpl.
  - left. split; [by eexists|]. intros f Hf. by apply elem_of_nil in Hf.
  - destruct (read z f) as [raw|] eqn:Hread.
    + destruct (IH (scan_shader_text acc (Bytes.decode_utf8_ignore raw)))
        as [[Hok Hall] | [Herr (g & Hg & Hnone)]].
      * left. split; [done|]. intros g [-> | Hg]%elem_of_cons; [|by apply Hall].
        by rewrite Hread.
      * right. split; [done|]. exists g. split; [|done].
        apply elem_of_cons. by right.
    + right. split; [apply scan_shader_files_Err|]. exists f.
      split; [apply elem_of_cons; by left | done].
Qed.

(** [gather_shaders] returns when every script can be read, and raises
    what [read] raises otherwise. *)
Lemma gather_shaders_result (z : ZipFile) :
  ((∃ shader_deps, gather_shaders z = Ok shader_deps)
   ∧ ∀ f, f ∈ namelist z → is_shader_name f = true → read z f ≠ None)
  ∨ (gather_shaders z = Err ReadError
     ∧ ∃ f, f ∈ namelist z ∧ is_shader_name f = true ∧ read z f = None).
Proof.
  unfold gather_shaders.
  destruct (scan_shader_files_result z
              (List.filter is_shader_name (namelist z)) ∅)
    as [[Hok Hall] | [Herr (f & Hf & Hnone)]].
  - left. split; [done|]. intros f Hf Hs. apply Hall.
    apply list_elem_of_In, filter_In. split; [by apply list_elem_of_In | done].
  - right. split; [done|]. exists f.
    apply list_elem_of_In, filter_In in Hf as [Hf Hs].
    split; [by apply list_elem_of_In | done].
Qed.

Lemma nonempty_true (s : string) : Py.nonempty s = true ↔ s ≠ EmptyString.
Proof. by destruct s. Qed.

Lemma no_empty_add (b : bool) (acc : gset string) (x : string) :
  no_empty acc → (b = true → x ≠ EmptyString) →
  no_empty (if b then acc ∪ {[ x ]} else acc).
Proof.
  intros Hacc Hx p [H | H]%elem_of_add_if; [by apply Hacc|].
  destruct b; [|done]. injection H as <-. by apply Hx.
Qed.

Lemma no_empty_union (s t : gset string) :
  no_empty s → no_empty t → no_empty (s ∪ t).
Proof. intros Hs Ht p [H | H]%elem_of_union; auto. Qed.

Lemma no_empty_empty : no_empty ∅.
Proof. intros p Hp. by apply not_elem_of_empty in Hp. Qed.

Lemma gather_textures_no_empty data off length :
  no_empty (gather_textures data off length).
Proof.
  unfold gather_textures.
  apply (foldl_preserves no_empty); [|apply no_empty_empty].
  intros acc i Hacc. unfold add_texture.
  apply no_empty_add; [done | apply nonempty_true].
Qed.

Lemma gather_entities_no_empty data off length :
  no_empty (gather_entities data off length).
Proof.
  unfold gather_entities.
  apply (foldl_preserves no_empty); [|apply no_empty_empty].
  intros acc key Hacc. apply (foldl_preserves no_empty); [|done].
  intros acc' p Hacc'. unfold add_entity_value.
  apply no_empty_add; [done|]. intros [H _]%andb_true_iff.
  by apply nonempty_true.
Qed.

Lemma gather_shaders_no_empty z shader_deps :
  gather_shaders z = Ok shader_deps → no_empty shader_deps.
Proof.
  unfold gather_shaders.
  apply (scan_shader_files_preserves no_empty); [|apply no_empty_empty].
  intros acc text Hacc. unfold scan_shader_text.
  apply (foldl_preserves no_empty); [|done].
  intros acc' m Hacc'. unfold add_shader_path.
  apply no_empty_add; [done|].
  intros (root & Hroot & Hs)%existsb_exists Heq. rewrite Heq in Hs.
  unfold SHADER_ROOTS in Hroot. simpl in Hroot.
  destruct Hroot as [<- | [<- | [<- | []]]]; discriminate Hs.
Qed.

(** No dependency is the empty string. *)
Lemma gather_deps_no_empty (z : ZipFile) (deps map_files : gset string) :
  gather_deps z = Ok (deps, map_files) → no_empty deps.
Proof.
  intros (bsp & rest & data & lumps & shader_deps & _ & _ & _ & _ & Hsh & -> & _)
    %gather_deps_ok_inv.
  repeat apply no_empty_union.
  - apply gather_textures_no_empty.
  - apply gather_entities_no_empty.
  - by apply (gather_shaders_no_empty z).
Qed.

(** ** Priority of the five lists *)

Lemma app_nonempty_r (s t : string) : t ≠ EmptyString → s +:+ t ≠ EmptyString.
Proof. destruct s; [by rewrite app_empty_l | by rewrite app_cons]. Qed.

(** The candidates of a dependency that is not empty are not empty. *)
Lemma candidates_nonempty (dep c : string) :
  dep ≠ EmptyString → In c (candidates dep) → c ≠ EmptyString.
Proof.
  intros Hdep. destruct dep as [|a dep]; [done|]. clear Hdep.
  unfold candidates. simpl Py.lower.
  set (low := String (Py.lower_char a) (Py.lower dep)).
  destruct (negb _); [|destruct (Py.endswith low ".tga");
                       [|destruct (Py.endswith low ".jpg")]];
    simpl; intros H; repeat (destruct H as [<- | H]); try done;
    by apply app_nonempty_r.
Qed.

(** For such a dependency the test of the loop on the result of
    [find_in_set] is the test that a candidate was found. *)
Lemma truthy_matches (dep : string) (s : gset string) :
  dep ≠ EmptyString →
  Py.truthy (find_in_set dep s) = bool_decide (matches dep s).
Proof.
  intros Hdep. destruct (decide (matches dep s)) as [Hm | Hm].
  - rewrite bool_decide_true by done. destruct Hm as [c Hfind].
    rewrite Hfind. simpl. apply nonempty_true.
    apply find_some in Hfind as [Hc _].
    by apply (candidates_nonempty dep c Hdep).
  - rewrite bool_decide_false by done.
    destruct (find_in_set dep s) as [c|] eqn:Hfind; [|done].
    exfalso. apply Hm. unfold matches. rewrite Hfind. by exists c.
Qed.

Section Priority.

Variables tf mf demo patch full : gset string.
Variable dep : string.
Hypothesis dep_nonempty : dep ≠ EmptyString.
Hypothesis dep_kept : ignored dep = false.

Let in_map : Prop := in_texture_folder tf dep = true ∨ matches dep mf.

Lemma bucket_of_dep_priority :
  let b := bucket_of_dep tf mf demo patch full dep in
  (b = Some FoundMap ↔ in_map)
  ∧ (b = Some FoundDemo ↔ ¬ in_map ∧ matches dep demo)
  ∧ (b = Some FoundPatch ↔
       ¬ in_map ∧ ¬ matches dep demo ∧ matches dep patch)
  ∧ (b = Some FoundFull ↔
       ¬ in_map ∧ ¬ matches dep demo ∧ ¬ matches dep patch
       ∧ matches dep full)
  ∧ (b = Some Missing ↔
       ¬ in_map ∧ ¬ matches dep demo ∧ ¬ matches dep patch
       ∧ ¬ matches dep full).
Proof.
  unfold in_map, bucket_of_dep. rewrite dep_kept.
  rewrite !truthy_matches by done.
  destruct (in_texture_folder tf dep); simpl orb;
    repeat case_bool_decide; cbv iota;
    repeat split; intros; try reflexivity;
    try match goal with H : Some _ = Some _ |- _ => discriminate H end;
    try tauto; try (exfalso; tauto); intuition discriminate.
Qed.

End Priority.

(** C1: in a run of the script on a map archive, a dependency that the
    ignore filters let through is in exactly one of the five lists, once.
    The list follows the priority map, demo, patch, full, missing: it is
    found-in-map when a texture folder of the map or the map index matches
    it, else found-in-demo when the demo index matches it, else
    found-in-patch when the patch index matches it, else found-in-full when
    the full index matches it, else missing.  In particular a dependency
    that the map does not match and that both the demo and the full index
    match is found-in-demo. *)
Theorem classification_priority
    (z : ZipFile) (demo patch full deps map_files : gset string)
    (bs : buckets) (v : verdict) (dep : string) :
  gather_deps z = Ok (deps, map_files) →
  check_map z demo patch full = Ok (bs, v) →
  dep ∈ deps →
  ignored dep = false →
  let in_map :=
    in_texture_folder (get_texture_folders map_files) dep = true
    ∨ matches dep map_files in
  (∃ b, dep ∈ bucket_list b bs ∧ ∀ b', dep ∈ bucket_list b' bs → b' = b)
  ∧ (∀ b, NoDup (bucket_list b bs))
  ∧ (dep ∈ found_map bs ↔ in_map)
  ∧ (dep ∈ found_demo bs ↔ ¬ in_map ∧ matches dep demo)
  ∧ (dep ∈ found_patch bs ↔
       ¬ in_map ∧ ¬ matches dep demo ∧ matches dep patch)
  ∧ (dep ∈ found_full bs ↔
       ¬ in_map ∧ ¬ matches dep demo ∧ ¬ matches dep patch
       ∧ matches dep full)
  ∧ (dep ∈ missing bs ↔
       ¬ in_map ∧ ¬ matches dep demo ∧ ¬ matches dep patch
       ∧ ¬ matches dep full)
  ∧ (¬ in_map → matches dep demo → matches dep full →
       dep ∈ found_demo bs ∧ dep ∉ found_full bs).
Proof.
  intros Hdeps Hrun Hin Hkept in_map.
  pose proof (gather_deps_no_empty z deps map_files Hdeps dep Hin) as Hne.
  unfold check_map in Hrun. rewrite Hdeps in Hrun. simpl in Hrun.
  injection Hrun as <- _.
  set (tf := get_texture_folders map_files).
  pose proof (bucket_of_dep_priority tf map_files demo patch full dep Hne Hkept)
    as (Hmap & Hdemo & Hpatch & Hfull & Hmiss).
  simpl in Hmap, Hdemo, Hpatch, Hfull, Hmiss.
  assert (Hmem : ∀ b,
    dep ∈ bucket_list b (classify_all tf map_files demo patch full deps)
    ↔ bucket_of_dep tf map_files demo patch full dep = Some b).
  { intros b. rewrite elem_of_classify_all. tauto. }
  split; [|split; [|split; [|split; [|split; [|split; [|split]]]]]].
  - destruct (bucket_of_dep tf map_files demo patch full dep) as [b|] eqn:Hb.
    + exists b. split; [by apply Hmem|].
      intros b' Hb'%Hmem. congruence.
    + exfalso. unfold bucket_of_dep in Hb. rewrite Hkept in Hb.
      repeat match type of Hb with
             | (if ?c then _ else _) = None => destruct c; [done|]
             end.
      done.
  - intros b. apply NoDup_classify_all.
  - etrans; [apply (Hmem FoundMap) | exact Hmap].
  - etrans; [apply (Hmem FoundDemo) | exact Hdemo].
  - etrans; [apply (Hmem FoundPatch) | exact Hpatch].
  - etrans; [apply (Hmem FoundFull) | exact Hfull].
  - etrans; [apply (Hmem Missing) | exact Hmiss].
  - intros Hnmap Hd Hf. split.
    + apply (Hmem FoundDemo), Hdemo. by split.
    + intros Hx%(Hmem FoundFull)%Hfull. tauto.
Qed.

Lemma classification_priority_witness :
  ∃ bs v,
    check_map Sample.plain_map {[ "textures/base/wall.jpg" ]} ∅
              {[ "textures/base/wall.tga" ]} = Ok (bs, v)
    ∧ "textures/base/wall" ∈ found_demo bs
    ∧ "textures/base/wall" ∉ found_full bs.
Proof.
  eexists _, _. split; [vm_compute; reflexivity|].
  refine (proj2 (proj2 (proj2 (proj2 (proj2 (proj2 (proj2
    (classification_priority Sample.plain_map
       {[ "textures/base/wall.jpg" ]} ∅ {[ "textures/base/wall.tga" ]}
       {[ "textures/base/wall"; "Textures/Common/caulk" ]}
       {[ "maps/a.bsp" ]} _ _ "textures/base/wall" _ _ _ _))))))) _ _ _).
  - vm_compute. reflexivity.
  - vm_compute. reflexivity.
  - apply elem_of_union_l, elem_of_singleton. reflexivity.
  - reflexivity.
  - vm_compute. intros [H | H]; [discriminate H | by destruct H].
  - vm_compute. eauto.
  - vm_compute. eauto.
Defined.

(** ** Slices, ranges and bytes *)

Lemma elem_of_range (n i : Z) : i ∈ Py.range n ↔ 0 ≤ i < n.
Proof.
  unfold Py.range. rewrite list_elem_of_In, in_map_iff. split.
  - intros (k & <- & Hk). apply in_seq in Hk. lia.
  - intros Hi. exists (Z.to_nat i). split; [lia|]. apply in_seq. lia.
Qed.


(** A slice with bounds that are not negative. *)
Lemma slice_nonneg {A} (l : list A) (start stop : Z) :
  0 ≤ start → 0 ≤ stop →
  Py.slice l start stop
  = take (Z.to_nat (stop - start)) (drop (Z.to_nat start) l).
Proof.
  intros Hstart Hstop. unfold Py.slice, Py.norm_index.
  destruct (Z.ltb_spec start 0); [lia|].
  destruct (Z.ltb_spec stop 0); [lia|].
  set (n := Z.of_nat (List.length l)).
  destruct (Z.le_gt_cases n start) as [Hge | Hlt].
  - rewrite !(drop_ge l) by lia. by rewrite !take_nil.
  - rewrite (Z.min_l start n) by lia.
    destruct (Z.le_gt_cases stop n) as [Hs | Hs].
    + by rewrite (Z.min_l stop n) by lia.
    + rewrite (Z.min_r stop n) by lia.
      rewrite !take_ge; [done | |]; rewrite length_drop; lia.
Qed.

Lemma length_slice_nonneg {A} (l : list A) (start stop : Z) :
  0 ≤ start ≤ stop →
  Z.of_nat (List.length (Py.slice l start stop))
  = Z.min stop (Z.of_nat (List.length l)) - Z.min start (Z.of_nat (List.length l)).
Proof.
  intros H. rewrite slice_nonneg by lia. rewrite length_take, length_drop. lia.
Qed.

Lemma bytes_eqb_eq (a b : list Byte.byte) : Bytes.eqb a b = true ↔ a = b.
Proof.
  revert b. induction a as [|x a IH]; intros [|y b]; simpl; try done.
  rewrite andb_true_iff, IH. split.
  - intros [Hxy ->]. by rewrite (Byte.byte_dec_bl x y Hxy).
  - intros [= -> ->]. split; [by apply Byte.byte_dec_lb | done].
Qed.

(** The bytes before the first null byte: a prefix without null byte that
    is the whole or is followed by a null byte. *)
Lemma before_null_split (b : list Byte.byte) :
  ∃ rest, b = Bytes.before_null b ++ rest
          ∧ Forall (λ x, x ≠ Byte.x00) (Bytes.before_null b)
          ∧ (rest = [] ∨ ∃ r, rest = Byte.x00 :: r).
Proof.
  induction b as [|x b (rest & Hb & Hall & Hrest)]; simpl.
  - exists []. auto.
  - destruct (Byte.eqb x Byte.x00) eqn:Hx.
    + apply Byte.byte_dec_bl in Hx as ->. exists (Byte.x00 :: b). eauto.
    + exists rest. split; [simpl; by f_equal|]. split; [|done].
      constructor; [|done]. intros ->. by rewrite Byte.byte_dec_lb in Hx.
Qed.


(** On the range of the model the text holds every code point of the
    decoding. *)
Lemma text_of_points_in_range (l : list Z) :
  Forall (λ p, 0 ≤ p < 256) l →
  List.map (λ c, Z.of_nat (nat_of_ascii c))
           (list_ascii_of_string (Bytes.text_of_points l)) = l.
Proof.
  induction 1 as [|p l Hp _ IH]; [done|]. simpl.
  destruct (Z.ltb_spec p 256) as [_ | ?]; [|lia]. simpl.
  rewrite nat_ascii_embedding by lia. rewrite IH. f_equal. lia.
Qed.

(** ** The texture lump *)

Lemma elem_of_add_texture data off (textures : gset string) (i : Z) (p : string) :
  p ∈ add_texture data off textures i
  ↔ p ∈ textures
    ∨ (if Py.nonempty (texture_name data off i)
       then Some (texture_name data off i) else None) = Some p.
Proof. unfold add_texture. apply elem_of_add_if. Qed.

Lemma elem_of_gather_textures data off length (name : string) :
  name ∈ gather_textures data off length
  ↔ name ≠ EmptyString
    ∧ ∃ i, 0 ≤ i < length / 72 ∧ name = texture_name data off i.
Proof.
  unfold gather_textures.
  rewrite (elem_of_foldl_pick (add_texture data off) _ (elem_of_add_texture data off)).
  unfold texture_records. split.
  - intros [H | (i & Hi & Hp)]; [by apply not_elem_of_empty in H|].
    apply elem_of_range in Hi.
    destruct (Py.nonempty (texture_name data off i)) eqn:Hn; [|done].
    injection Hp as <-. apply nonempty_true in Hn. eauto.
  - intros (Hn & i & Hi & ->). right. exists i.
    split; [by apply elem_of_range|].
    apply nonempty_true in Hn. by rewrite Hn.
Qed.



(** ** The BSP entry and its header *)

Lemma unpack_ii_is_Some (buf : list Byte.byte) :
  is_Some (Bytes.unpack_ii buf) ↔ List.length buf = 8%nat.
Proof.
  unfold Bytes.unpack_ii.
  do 9 (destruct buf as [|? buf];
        [split; [by intros [? ?] | done] |]);
    try (split; [by intros [? ?] | done]).
Qed.

Lemma lump_is_Some (data : list Byte.byte) (i : Z) :
  0 ≤ i →
  is_Some (lump data i) ↔ 8 + i * 8 + 8 ≤ Z.of_nat (List.length data).
Proof.
  intros Hi. unfold lump. rewrite unpack_ii_is_Some.
  pose proof (length_slice_nonneg data (8 + i * 8) (8 + i * 8 + 8)) as Hlen.
  lia.
Qed.

(** The directory is read exactly when the file holds its 144 bytes. *)
Lemma read_lumps_is_Some (data : list Byte.byte) :
  is_Some (read_lumps data) ↔ 144 ≤ Z.of_nat (List.length data).
Proof.
  unfold read_lumps. rewrite mapM_is_Some, Forall_forall. split.
  - intros H. specialize (H 16). simpl in H.
    apply lump_is_Some in H; [lia | lia |]. apply elem_of_range. lia.
  - intros H i Hi%elem_of_range. simpl. apply lump_is_Some; lia.
Qed.

Lemma filter_nil_iff {A} (p : A → bool) (l : list A) :
  List.filter p l = [] ↔ ∀ x, x ∈ l → p x = false.
Proof.
  induction l as [|a l IH]; simpl.
  - split; [intros _ x Hx; by inversion Hx | done].
  - destruct (p a) eqn:Hpa.
    + split; [done|]. intros H. specialize (H a (list_elem_of_here _ _)). congruence.
    + rewrite IH. split.
      * intros H x [-> | Hx]%elem_of_cons; auto.
      * intros H x Hx. apply H. by apply list_elem_of_further.
Qed.

(** The first entry of the listing that passes a filter heads the filtered
    list. *)
Lemma filter_first {A} (p : A → bool) (before after : list A) (x : A) :
  (∀ y, y ∈ before → p y = false) → p x = true →
  List.filter p (before ++ x :: after) = x :: List.filter p after.
Proof.
  intros Hbefore Hx. rewrite List.filter_app.
  replace (List.filter p before) with (@nil A)
    by (symmetry; by apply filter_nil_iff).
  simpl. by rewrite Hx.
Qed.

(** C5, as the code has it, for a map archive that has been opened.
    [gather_deps] fails with [NoBspFound] exactly when no entry of the
    archive has a lower-cased path that starts with [maps/] and ends with
    [.bsp].  Otherwise it reads the data stored under the name of the first
    such entry of the listing, and fails with what [read] raises when that
    member cannot be read.  When it can, [gather_deps] fails with
    [InvalidBsp] exactly when the first four bytes of the data are not the
    magic; with the error of [struct.unpack] exactly when they are and the
    data is shorter than the 144 bytes of the header and the lump
    directory; with what [read] raises exactly when the magic and the
    directory are there and some shader script of the archive cannot be
    read; and it completes without error exactly when the magic and the
    directory are there and every shader script of the archive can be
    read. *)
Theorem gather_deps_failures (z : ZipFile) :
  (gather_deps z = Err NoBspFound
   ↔ ∀ f, f ∈ namelist z →
       ¬ (Py.startswith (Py.lower f) "maps/" = true
          ∧ Py.endswith (Py.lower f) ".bsp" = true))
  ∧ ∀ before bsp after,
      namelist z = before ++ bsp :: after →
      (∀ f, f ∈ before → is_bsp_name f = false) →
      is_bsp_name bsp = true →
      gather_deps z ≠ Err NoBspFound
      ∧ (read z bsp = None → gather_deps z = Err ReadError)
      ∧ ∀ data, read z bsp = Some data →
          (gather_deps z = Err InvalidBsp ↔ Py.slice data 0 4 ≠ Bytes.IBSP)
          ∧ (gather_deps z = Err StructError
             ↔ Py.slice data 0 4 = Bytes.IBSP
               ∧ Z.of_nat (List.length data) < 144)
          ∧ (gather_deps z = Err ReadError
             ↔ Py.slice data 0 4 = Bytes.IBSP
               ∧ 144 ≤ Z.of_nat (List.length data)
               ∧ ∃ f, f ∈ namelist z ∧ is_shader_name f = true
                      ∧ read z f = None)
          ∧ ((∃ r, gather_deps z = Ok r)
             ↔ Py.slice data 0 4 = Bytes.IBSP
               ∧ 144 ≤ Z.of_nat (List.length data)
               ∧ ∀ f, f ∈ namelist z → is_shader_name f = true →
                      read z f ≠ None).
Proof.
  split.
  - unfold gather_deps.
    destruct (List.filter is_bsp_name (namelist z)) as [|bsp rest] eqn:Hf.
    + split; [intros _ | done].
      intros f Hin [H1 H2]. rewrite filter_nil_iff in Hf.
      specialize (Hf f Hin). unfold is_bsp_name in Hf. by rewrite H1, H2 in Hf.
    + split.
      * destruct (read z bsp); [|done].
        destruct (negb _); [done|]. destruct (read_lumps _); [|done].
        do 2 destruct (nth _ _ _).
        by destruct (gather_shaders_result z) as [[[sd ->] _] | [-> _]].
      * intros H. exfalso.
        assert (Hnil : List.filter is_bsp_name (namelist z) = []).
        { apply filter_nil_iff. intros f Hin.
          unfold is_bsp_name. apply not_true_iff_false.
          intros [? ?]%andb_true_iff. by apply (H f Hin). }
        congruence.
  - intros before bsp after Hlist Hbefore Hbsp.
    unfold gather_deps. rewrite Hlist, (filter_first _ _ _ _ Hbefore Hbsp).
    rewrite <- Hlist.
    destruct (read z bsp) as [data'|]; [|by repeat split].
    split.
    { destruct (negb _); [done|]. destruct (read_lumps _); [|done].
      do 2 destruct (nth _ _ _).
      by destruct (gather_shaders_result z) as [[[sd ->] _] | [-> _]]. }
    split; [done|]. intros data [= ->].
    destruct (Bytes.eqb (Py.slice data 0 4) Bytes.IBSP) eqn:Hmagic;
      simpl negb; cbv iota.
    + apply bytes_eqb_eq in Hmagic.
      pose proof (read_lumps_is_Some data) as Hl.
      destruct (read_lumps data) as [lumps|].
      * assert (Hlen : 144 ≤ Z.of_nat (List.length data)) by (apply Hl; eauto).
        do 2 destruct (nth _ _ _).
        destruct (gather_shaders_result z)
          as [[[sd ->] Hall] | [-> (f & Hf & Hs & Hnone)]]; simpl.
        -- split; [split; [done | by intros ?] |].
           split; [split; [done | intros [_ ?]; lia] |].
           split; [split; [done | intros (_ & _ & f & Hf & Hs & Hnone)] |].
           { by destruct (Hall f Hf Hs). }
           split; [done | intros _; eauto].
        -- split; [split; [done | by intros ?] |].
           split; [split; [done | intros [_ ?]; lia] |].
           split; [split; [intros _; eauto 10 | done] |].
           split; [by intros [r Hr] | intros (_ & _ & Hall)].
           by destruct (Hall f Hf Hs).
      * assert (Hlen : Z.of_nat (List.length data) < 144).
        { destruct (Z.lt_ge_cases (Z.of_nat (List.length data)) 144) as [|Hge];
            [done|]. apply Hl in Hge. by apply is_Some_None in Hge. }
        split; [split; [done | by intros ?] |].
        split; [split; [by intros _ | done] |].
        split; [split; [done | intros (_ & ? & _); lia] |].
        split; [by intros [r Hr] | intros (_ & ? & _); lia].
    + assert (Hne : Py.slice data 0 4 ≠ Bytes.IBSP).
      { intros Heq%bytes_eqb_eq. congruence. }
      split; [split; [done | done] |].
      split; [split; [done | by intros [? _]] |].
      split; [split; [done | by intros [? _]] |].
      split; [by intros [r Hr] | by intros [? _]].
Qed.

Lemma gather_deps_failures_witness :
  (∃ r, gather_deps Sample.scenario_a = Ok r)
  ∧ gather_deps Sample.truncated_bsp = Err StructError
  ∧ gather_deps Sample.unreadable_shader = Err ReadError.
Proof.
  split; [|split].
  - destruct (proj2 (gather_deps_failures Sample.scenario_a)
                [] "maps/a.bsp" ["textures/foo/bar.jpg"])
      as (_ & _ & H).
    + reflexivity.
    + intros f Hf. by inversion Hf.
    + reflexivity.
    + apply (H (Sample.bsp EmptyString ["textures/foo/bar"]));
        [reflexivity|].
      split; [reflexivity|]. split; [vm_compute; discriminate|].
      intros f Hf Hs. exfalso. revert Hs.
      apply elem_of_cons in Hf as [-> | Hf]; [discriminate|].
      apply elem_of_cons in Hf as [-> | Hf]; [discriminate|].
      by apply elem_of_nil in Hf.
  - destruct (proj2 (gather_deps_failures Sample.truncated_bsp)
                [] "maps/a.bsp" [])
      as (_ & _ & H).
    + reflexivity.
    + intros f Hf. by inversion Hf.
    + reflexivity.
    + apply (H Bytes.IBSP); [reflexivity|].
      split; [reflexivity | vm_compute; reflexivity].
  - destruct (proj2 (gather_deps_failures Sample.unreadable_shader)
                [] "maps/a.bsp" ["scripts/a.shader"])
      as (_ & _ & H).
    + reflexivity.
    + intros f Hf. by inversion Hf.
    + reflexivity.
    + apply (H (Sample.bsp EmptyString [])); [reflexivity|].
      split; [reflexivity|]. split; [vm_compute; discriminate|].
      exists "scripts/a.shader". split; [|split; reflexivity].
      apply list_elem_of_further, list_elem_of_here.
Defined.

(** C5 as stated does not hold: the archive whose only BSP entry holds the
    four bytes of the magic and nothing more passes both tests, and
    [gather_deps] fails on it, in the decoding of the lump directory. *)
Lemma gather_deps_truncated_header :
  List.filter is_bsp_name (namelist Sample.truncated_bsp) = ["maps/a.bsp"]
  ∧ read Sample.truncated_bsp "maps/a.bsp" = Some Bytes.IBSP
  ∧ Py.slice Bytes.IBSP 0 4 = Bytes.IBSP
  ∧ gather_deps Sample.truncated_bsp = Err StructError
  ∧ ¬ ∃ r, gather_deps Sample.truncated_bsp = Ok r.
Proof.
  repeat split. intros [r Hr]. discriminate Hr.
Qed.

(** ** Shader directives *)

Lemma space_not_word (c : ascii) : Re.is_space c = true → Re.is_word c = false.
Proof. destruct c as [[] [] [] [] [] [] [] []]; vm_compute; congruence. Qed.

Lemma space_not_slash (c : ascii) :
  Re.is_space c = true → Ascii.eqb c "/"%char = false.
Proof. destruct c as [[] [] [] [] [] [] [] []]; vm_compute; congruence. Qed.

Lemma word_not_slash (c : ascii) :
  Re.is_word c = true → Ascii.eqb c "/"%char = false.
Proof. destruct c as [[] [] [] [] [] [] [] []]; vm_compute; congruence. Qed.

Lemma is_word_lower_char (c : ascii) :
  Re.is_word (Py.lower_char c) = Re.is_word c.
Proof. destruct c as [[] [] [] [] [] [] [] []]; reflexivity. Qed.

Lemma all_chars_cons (p : ascii → bool) (c : ascii) (s : string) :
  all_chars p (String c s) = p c && all_chars p s.
Proof. reflexivity. Qed.

Lemma all_chars_app (p : ascii → bool) (s t : string) :
  all_chars p (s +:+ t) = all_chars p s && all_chars p t.
Proof.
  induction s as [|c s IH]; [reflexivity|].
  by rewrite app_cons, !all_chars_cons, IH, andb_assoc.
Qed.

Lemma all_chars_impl (p q : ascii → bool) (s : string) :
  (∀ c, p c = true → q c = true) →
  all_chars p s = true → all_chars q s = true.
Proof.
  intros Hpq. induction s as [|c s IH]; [done|].
  rewrite !all_chars_cons, !andb_true_iff. intros [? ?]. auto.
Qed.

Lemma all_word_lower (s : string) :
  all_chars Re.is_word (Py.lower s) = all_chars Re.is_word s.
Proof.
  induction s as [|c s IH]; [reflexivity|].
  simpl Py.lower. by rewrite !all_chars_cons, is_word_lower_char, IH.
Qed.

Lemma strip_prefix_Some (pre s r : string) :
  Re.strip_prefix pre s = Some r → s = pre +:+ r.
Proof.
  revert s. induction pre as [|a pre IH]; intros s; simpl.
  - by intros [= ->].
  - destruct s as [|b s]; [done|].
    destruct (Ascii.eqb_spec a b) as [-> |]; [|done].
    intros ->%IH. by rewrite app_cons.
Qed.

Lemma span_head (p : ascii → bool) (s ws r : string) (c : ascii) :
  Re.span p s = (String c ws, r) → ∃ s', s = String c s' ∧ p c = true.
Proof.
  destruct s as [|a s]; simpl; [done|].
  destruct (p a) eqn:Hp; [|done].
  destruct (Re.span p s). intros [= -> _ _]. eauto.
Qed.

Lemma first_match_None {A B} (f : A → option B) (l : list A) :
  (∀ x, In x l → f x = None) → Re.first_match f l = None.
Proof.
  induction l as [|x l IH]; intros H; simpl; [done|].
  rewrite (H x) by (by left). apply IH. intros y Hy. apply H. by right.
Qed.

Lemma keyword_word (kw : string) :
  In kw Re.KEYWORDS → all_chars Re.is_word kw = true.
Proof. intros [<- | [<- | [<- | [<- | []]]]]; reflexivity. Qed.

(** Two keywords that agree up to letter case are the same keyword. *)
Lemma keyword_lower_inj (k k' : string) :
  In k Re.KEYWORDS → In k' Re.KEYWORDS → Py.lower k = Py.lower k' → k = k'.
Proof.
  intros [<- | [<- | [<- | [<- | []]]]] [<- | [<- | [<- | [<- | []]]]];
    (reflexivity || (vm_compute; discriminate)).
Qed.

(** A run of word characters that stops at a character which is none is
    determined by the text. *)
Lemma word_prefix_unique (v k x y : string) (a b : ascii) :
  all_chars Re.is_word v = true → all_chars Re.is_word k = true →
  Re.is_word a = false → Re.is_word b = false →
  v +:+ String a x = k +:+ String b y → v = k.
Proof.
  intros Hv Hk Ha Hb. revert k Hk.
  induction v as [|c v IH]; intros [|d k] Hk Heq; try done.
  - rewrite app_empty_l, app_cons in Heq. injection Heq as -> _.
    rewrite all_chars_cons, Ha in Hk. done.
  - rewrite app_empty_l, app_cons in Heq. injection Heq as -> _.
    rewrite all_chars_cons, Hb in Hv. done.
  - rewrite !app_cons in Heq. injection Heq as -> Heq.
    rewrite all_chars_cons in Hv, Hk.
    apply andb_true_iff in Hv as [_ Hv], Hk as [_ Hk].
    f_equal. by apply IH.
Qed.

(** A word that is no keyword starts no match, whatever follows the space
    after it. *)
Lemma match_keyword_other_word (prev : option ascii) (v rest kw : string)
    (a : ascii) :
  In kw Re.KEYWORDS →
  all_chars Re.is_word v = true → ¬ In v Re.KEYWORDS →
  Re.is_space a = true →
  Re.match_keyword prev (v +:+ String a rest) kw = None.
Proof.
  intros Hkw Hv Hnot Ha. unfold Re.match_keyword.
  destruct (Re.word_boundary prev _); [|done].
  destruct (Re.strip_prefix kw _) as [r1|] eqn:Hsp; [|done].
  apply strip_prefix_Some in Hsp.
  destruct (Re.word_boundary (Re.last_char kw) _); [|done].
  destruct (Re.span Re.is_space r1) as [ws r2] eqn:Hws.
  destruct (Re.span _ r2) as [tok r3].
  destruct ws as [|b ws]; [done|].
  apply span_head in Hws as (r1' & -> & Hb).
  exfalso. apply Hnot.
  rewrite (word_prefix_unique v kw rest r1' a b); auto using keyword_word, space_not_word.
Qed.

(** No keyword starts at a space. *)
Lemma match_keyword_at_space (prev : option ascii) (s kw : string) (a : ascii) :
  In kw Re.KEYWORDS → Re.is_space a = true →
  Re.match_keyword prev (String a s) kw = None.
Proof.
  intros Hkw Ha. unfold Re.match_keyword.
  destruct (Re.word_boundary prev _); [|done].
  destruct (Re.strip_prefix kw _) as [r1|] eqn:Hsp; [|done].
  apply strip_prefix_Some in Hsp. exfalso.
  pose proof (keyword_word kw Hkw) as Hw.
  destruct kw as [|c kw]; [by destruct Hkw as [? | [? | [? | [? | []]]]]|].
  rewrite app_cons in Hsp. injection Hsp as -> _.
  rewrite all_chars_cons, (space_not_word _ Ha) in Hw. done.
Qed.

(** No match starts in a text without space. *)
Lemma match_keyword_no_space (prev : option ascii) (s kw : string) :
  all_chars (λ c, negb (Re.is_space c)) s = true →
  Re.match_keyword prev s kw = None.
Proof.
  intros Hs. unfold Re.match_keyword.
  destruct (Re.word_boundary prev _); [|done].
  destruct (Re.strip_prefix kw _) as [r1|] eqn:Hsp; [|done].
  apply strip_prefix_Some in Hsp. subst s.
  rewrite all_chars_app in Hs. apply andb_true_iff in Hs as [_ Hr1].
  destruct (Re.word_boundary (Re.last_char kw) _); [|done].
  destruct (Re.span Re.is_space r1) as [ws r2] eqn:Hws.
  destruct (Re.span _ r2) as [tok r3].
  destruct ws as [|b ws]; [done|].
  apply span_head in Hws as (r1' & -> & Hb).
  rewrite all_chars_cons, Hb in Hr1. done.
Qed.

Lemma findall_no_space (prev : option ascii) (arg : string) :
  all_chars (λ c, negb (Re.is_space c)) arg = true →
  Re.findall_directive 0 prev arg = [].
Proof.
  revert prev. induction arg as [|a arg IH]; intros prev Harg; [done|].
  simpl. unfold Re.match_directive.
  rewrite first_match_None by (intros; by apply match_keyword_no_space).
  apply IH. rewrite all_chars_cons in Harg.
  by apply andb_true_iff in Harg as [_ ?].
Qed.

Lemma findall_spaces (prev : option ascii) (w arg : string) :
  all_chars Re.is_space w = true →
  all_chars (λ c, negb (Re.is_space c)) arg = true →
  Re.findall_directive 0 prev (w +:+ arg) = [].
Proof.
  intros Hw Harg. revert prev.
  induction w as [|a w IH]; intros prev.
  - rewrite app_empty_l. by apply findall_no_space.
  - rewrite all_chars_cons in Hw. apply andb_true_iff in Hw as [Ha Hw].
    rewrite app_cons. simpl. unfold Re.match_directive.
    rewrite first_match_None by (intros; by apply match_keyword_at_space).
    by apply IH.
Qed.

Lemma findall_inside_word (c0 : ascii) (v rest : string) :
  Re.is_word c0 = true → all_chars Re.is_word v = true →
  ∃ c, Re.findall_directive 0 (Some c0) (v +:+ rest)
       = Re.findall_directive 0 (Some c) rest.
Proof.
  revert c0. induction v as [|a v IH]; intros c0 Hc0 Hv.
  - exists c0. by rewrite app_empty_l.
  - rewrite all_chars_cons in Hv. apply andb_true_iff in Hv as [Ha Hv].
    destruct (IH a Ha Hv) as [c Hc]. exists c.
    rewrite app_cons. simpl. unfold Re.match_directive.
    rewrite first_match_None; [done|].
    intros kw _. unfold Re.match_keyword, Re.word_boundary. simpl.
    by rewrite Hc0, Ha.
Qed.

(** A word that is no keyword, spaces, and a token without space: the scan
    finds nothing. *)
Lemma findall_other_word (v w arg : string) :
  all_chars Re.is_word v = true → ¬ In v Re.KEYWORDS →
  all_chars Re.is_space w = true → w ≠ EmptyString →
  all_chars (λ c, negb (Re.is_space c)) arg = true →
  Re.findall_directive 0 None (v +:+ w +:+ arg) = [].
Proof.
  intros Hv Hnot Hw Hne Harg.
  destruct v as [|c v]; [rewrite app_empty_l; by apply findall_spaces|].
  destruct w as [|a w]; [done|].
  pose proof Hw as Hw'. rewrite all_chars_cons in Hw'.
  apply andb_true_iff in Hw' as [Ha _].
  assert (Hfirst : Re.match_directive None (String c v +:+ String a w +:+ arg) = None).
  { unfold Re.match_directive. apply first_match_None. intros kw Hkw.
    rewrite app_cons. by apply (match_keyword_other_word None (String c v)). }
  rewrite app_cons in *. simpl. rewrite Hfirst.
  rewrite all_chars_cons in Hv. apply andb_true_iff in Hv as [Hc Hv].
  destruct (findall_inside_word c v (String a w +:+ arg) Hc Hv) as [c' ->].
  by apply findall_spaces.
Qed.

(** Both comment patterns start with a slash. *)
Lemma match_block_not_slash (c : ascii) (x : string) :
  Ascii.eqb c "/"%char = false → Re.match_block (String c x) = None.
Proof. intros Hc. destruct x; simpl; [done | by rewrite Hc]. Qed.

Lemma match_line_not_slash (c : ascii) (x : string) :
  Ascii.eqb c "/"%char = false → Re.match_line (String c x) = None.
Proof. intros Hc. destruct x; simpl; [done | by rewrite Hc]. Qed.

Lemma sub_empty_prefix (m : string → option nat) (s t : string) :
  (∀ c x, Ascii.eqb c "/"%char = false → m (String c x) = None) →
  all_chars (λ c, negb (Ascii.eqb c "/"%char)) s = true →
  Re.sub_empty m 0 (s +:+ t) = s +:+ Re.sub_empty m 0 t.
Proof.
  intros Hm. induction s as [|c s IH]; intros Hs; [done|].
  rewrite all_chars_cons in Hs. apply andb_true_iff in Hs as [Hc Hs].
  apply negb_true_iff in Hc.
  rewrite !app_cons. simpl. rewrite (Hm c _ Hc). by rewrite IH.
Qed.

Lemma sub_empty_all_chars (p : ascii → bool) (m : string → option nat)
    (skip : nat) (t : string) :
  all_chars p t = true → all_chars p (Re.sub_empty m skip t) = true.
Proof.
  revert skip. induction t as [|c t IH]; intros skip Ht; [done|].
  rewrite all_chars_cons in Ht. apply andb_true_iff in Ht as [Hc Ht].
  simpl. destruct skip as [|k]; [|by apply IH].
  destruct (m (String c t)); [by apply IH|].
  rewrite all_chars_cons, Hc. by apply IH.
Qed.

(** Comments can only start in the token. *)
Lemma strip_comments_word_spaces (v w arg : string) :
  all_chars Re.is_word v = true → all_chars Re.is_space w = true →
  strip_comments (v +:+ w +:+ arg) = v +:+ w +:+ strip_comments arg.
Proof.
  intros Hv Hw. unfold strip_comments.
  assert (Hv' : all_chars (λ c, negb (Ascii.eqb c "/"%char)) v = true).
  { revert Hv. apply all_chars_impl. intros c Hc.
    by rewrite (word_not_slash c Hc). }
  assert (Hw' : all_chars (λ c, negb (Ascii.eqb c "/"%char)) w = true).
  { revert Hw. apply all_chars_impl. intros c Hc.
    by rewrite (space_not_slash c Hc). }
  rewrite !(sub_empty_prefix Re.match_block) by auto using match_block_not_slash.
  by rewrite !(sub_empty_prefix Re.match_line) by auto using match_line_not_slash.
Qed.

Lemma strip_comments_all_chars (p : ascii → bool) (t : string) :
  all_chars p t = true → all_chars p (strip_comments t) = true.
Proof. intros Ht. unfold strip_comments. by do 2 apply sub_empty_all_chars. Qed.

Lemma case_variant_word (v k : string) :
  In k Re.KEYWORDS → case_variant v k →
  all_chars Re.is_word v = true ∧ ¬ In v Re.KEYWORDS.
Proof.
  intros Hk [Hlow Hne]. split.
  - by rewrite <- all_word_lower, Hlow, all_word_lower, keyword_word.
  - intros Hv. apply Hne. by apply keyword_lower_inj.
Qed.

(** Every command that the scan returns is one of the four keywords,
    letter for letter. *)
Lemma findall_directive_keyword (text : string) (skip : nat)
    (prev : option ascii) (cmd path : string) :
  In (cmd, path) (Re.findall_directive skip prev text) → In cmd Re.KEYWORDS.
Proof.
  revert skip prev. induction text as [|c text IH]; intros skip prev; [done|].
  simpl. destruct skip as [|k]; [|apply IH].
  destruct (Re.match_directive prev (String c text)) as [[[cmd' path'] len]|]
    eqn:Hm; [|apply IH].
  intros [[= -> ->] | H]; [|by apply IH in H].
  unfold Re.match_directive in Hm. clear IH.
  assert (Hkw : ∀ l, Re.first_match (Re.match_keyword prev (String c text)) l
                     = Some (cmd, path, len) → In cmd l).
  { induction l as [|kw l IHl]; simpl; [done|].
    destruct (Re.match_keyword prev (String c text) kw) as [[[c1 p1] l1]|] eqn:Hk.
    - intros [= -> -> ->]. left. unfold Re.match_keyword in Hk.
      destruct (Re.word_boundary prev _); [|done].
      destruct (Re.strip_prefix kw _); [|done].
      destruct (Re.word_boundary _ _); [|done].
      destruct (Re.span Re.is_space _) as [ws r2].
      destruct (Re.span _ r2) as [tok r3].
      destruct ws; [done|]. destruct tok; [done|]. by injection Hk as -> _ _.
    - intros H. right. by apply IHl. }
  exact (Hkw Re.KEYWORDS Hm).
Qed.

(** *** Where the matches of the scan are *)

Lemma findall_finditer (s : string) (pos skip : nat) (prev : option ascii) :
  Re.findall_directive skip prev s
  = List.map snd (Re.finditer_directive pos skip prev s).
Proof.
  revert pos skip prev. induction s as [|c s IH]; intros pos skip prev; [done|].
  simpl. destruct skip as [|k]; [|apply IH].
  destruct (Re.match_directive prev (String c s)) as [[[cmd path] len]|];
    simpl; [f_equal|]; apply IH.
Qed.

Lemma span_spec (p : ascii → bool) (s a b : string) :
  Re.span p s = (a, b) →
  s = a +:+ b ∧ all_chars p a = true ∧ stops p b = true.
Proof.
  revert a b. induction s as [|c s IH]; intros a b; simpl.
  - by intros [= <- <-].
  - destruct (p c) eqn:Hc.
    + destruct (Re.span p s) as [a' b'] eqn:Hs. intros [= <- <-].
      destruct (IH a' b' eq_refl) as (-> & Ha & Hb).
      by rewrite app_cons, all_chars_cons, Hc.
    + intros [= <- <-]. simpl. by rewrite Hc.
Qed.

(** A match of one alternative is the keyword, white space, and a token
    that ends at the next white space or with the text. *)
Lemma match_keyword_split (prev : option ascii) (s kw cmd path : string)
    (len : nat) :
  Re.match_keyword prev s kw = Some (cmd, path, len) →
  cmd = kw
  ∧ Re.word_boundary prev (Re.head s) = true
  ∧ ∃ ws post,
      s = kw +:+ ws +:+ path +:+ post
      ∧ ws ≠ EmptyString ∧ all_chars Re.is_space ws = true
      ∧ path ≠ EmptyString
      ∧ all_chars (λ c, negb (Re.is_space c)) path = true
      ∧ stops (λ c, negb (Re.is_space c)) post = true.
Proof.
  unfold Re.match_keyword.
  destruct (Re.word_boundary prev _) eqn:Hb; [|done].
  destruct (Re.strip_prefix kw s) as [r1|] eqn:Hsp; [|done].
  apply strip_prefix_Some in Hsp.
  destruct (Re.word_boundary (Re.last_char kw) _); [|done].
  destruct (Re.span Re.is_space r1) as [ws r2] eqn:Hws.
  destruct (Re.span _ r2) as [tok r3] eqn:Htok.
  destruct ws as [|a ws]; [done|]. destruct tok as [|b tok]; [done|].
  intros [= <- <- _].
  apply span_spec in Hws as (-> & Hws & _).
  apply span_spec in Htok as (-> & Htok & Hpost).
  split; [done|]. split; [done|].
  exists (String a ws), r3. by repeat split.
Qed.

Lemma match_directive_split (prev : option ascii) (s cmd path : string)
    (len : nat) :
  Re.match_directive prev s = Some (cmd, path, len) →
  In cmd Re.KEYWORDS
  ∧ Re.is_word_opt prev = false
  ∧ ∃ ws post,
      s = cmd +:+ ws +:+ path +:+ post
      ∧ ws ≠ EmptyString ∧ all_chars Re.is_space ws = true
      ∧ path ≠ EmptyString
      ∧ all_chars (λ c, negb (Re.is_space c)) path = true
      ∧ stops (λ c, negb (Re.is_space c)) post = true.
Proof.
  unfold Re.match_directive.
  assert (Hl : ∀ l, (∀ kw, In kw l → In kw Re.KEYWORDS) →
            Re.first_match (Re.match_keyword prev s) l = Some (cmd, path, len) →
            In cmd Re.KEYWORDS
            ∧ Re.is_word_opt prev = false
            ∧ ∃ ws post,
                s = cmd +:+ ws +:+ path +:+ post
                ∧ ws ≠ EmptyString ∧ all_chars Re.is_space ws = true
                ∧ path ≠ EmptyString
                ∧ all_chars (λ c, negb (Re.is_space c)) path = true
                ∧ stops (λ c, negb (Re.is_space c)) post = true).
  { induction l as [|kw l IHl]; intros Hsub; simpl; [done|].
    destruct (Re.match_keyword prev s kw) as [[[c1 p1] l1]|] eqn:Hk.
    - intros [= -> -> ->].
      apply match_keyword_split in Hk as (-> & Hb & ws & post & Hs & Hrest).
      assert (Hkw : In kw Re.KEYWORDS) by (apply Hsub; by left).
      split; [done|]. split; [|by exists ws, post].
      pose proof (keyword_word kw Hkw) as Hw.
      destruct kw as [|c0 kw]; [by destruct Hkw as [? | [? | [? | [? | []]]]]|].
      rewrite all_chars_cons in Hw. apply andb_true_iff in Hw as [Hc0 _].
      rewrite Hs, app_cons in Hb. unfold Re.word_boundary in Hb. simpl in Hb.
      rewrite Hc0 in Hb. by destruct (Re.is_word_opt prev).
    - apply IHl. intros kw' Hkw'. apply Hsub. by right. }
  by apply Hl.
Qed.

(** Every match of the scan starts where the text holds one of the four
    keywords letter for letter, after a character that is no word
    character, and takes the token after the white space. *)
Lemma finditer_directive_sound (s : string) (pos0 skip : nat)
    (prev : option ascii) (pos : nat) (cmd path : string) :
  In (pos, (cmd, path)) (Re.finditer_directive pos0 skip prev s) →
  ∃ pre ws post,
    pos = (pos0 + String.length pre)%nat
    ∧ s = pre +:+ cmd +:+ ws +:+ path +:+ post
    ∧ In cmd Re.KEYWORDS
    ∧ Re.is_word_opt (char_before prev pre) = false
    ∧ ws ≠ EmptyString ∧ all_chars Re.is_space ws = true
    ∧ path ≠ EmptyString
    ∧ all_chars (λ c, negb (Re.is_space c)) path = true
    ∧ stops (λ c, negb (Re.is_space c)) post = true.
Proof.
  revert pos0 skip prev. induction s as [|c s IH]; intros pos0 skip prev; [done|].
  assert (Hrec : ∀ k,
            In (pos, (cmd, path)) (Re.finditer_directive (S pos0) k (Some c) s) →
            ∃ pre ws post,
              pos = (pos0 + String.length pre)%nat
              ∧ String c s = pre +:+ cmd +:+ ws +:+ path +:+ post
              ∧ In cmd Re.KEYWORDS
              ∧ Re.is_word_opt (char_before prev pre) = false
              ∧ ws ≠ EmptyString ∧ all_chars Re.is_space ws = true
              ∧ path ≠ EmptyString
              ∧ all_chars (λ c, negb (Re.is_space c)) path = true
              ∧ stops (λ c, negb (Re.is_space c)) post = true).
  { intros k H. apply IH in H as (pre & ws & post & -> & -> & Hrest).
    exists (String c pre), ws, post. simpl String.length.
    split; [lia|]. split; [by rewrite app_cons | exact Hrest]. }
  simpl. destruct skip as [|k]; [|apply Hrec].
  destruct (Re.match_directive prev (String c s)) as [[[cmd' path'] len]|]
    eqn:Hm; [|apply Hrec].
  intros [[= <- <- <-] | H]; [|by apply Hrec in H].
  apply match_directive_split in Hm as (Hk & Hprev & ws & post & Hs & Hrest).
  exists EmptyString, ws, post. rewrite app_empty_l. simpl.
  split; [lia|]. split; [exact Hs|]. split; [exact Hk|].
  split; [exact Hprev | exact Hrest].
Qed.

(** No match starts inside a word. *)
Lemma finditer_directive_in_word (v rest : string) (c0 : ascii)
    (pos0 skip pos : nat) (m : string * string) :
  Re.is_word c0 = true → all_chars Re.is_word v = true →
  In (pos, m) (Re.finditer_directive pos0 skip (Some c0) (v +:+ rest)) →
  (pos0 + String.length v ≤ pos)%nat.
Proof.
  revert c0 pos0 skip. induction v as [|b v IH]; intros c0 pos0 skip Hc0 Hv.
  - rewrite app_empty_l. destruct m as [cmd path].
    intros (pre & _ & _ & -> & _)%finditer_directive_sound. simpl. lia.
  - rewrite all_chars_cons in Hv. apply andb_true_iff in Hv as [Hb Hv].
    rewrite app_cons.
    assert (Hm : Re.match_directive (Some c0) (String b (v +:+ rest)) = None).
    { unfold Re.match_directive. apply first_match_None. intros kw _.
      unfold Re.match_keyword, Re.word_boundary. simpl. by rewrite Hc0, Hb. }
    simpl. destruct skip as [|k]; [rewrite Hm|];
      intros H; apply (IH b) in H; try done; lia.
Qed.

(** No match starts in a word that is no keyword and is followed by white
    space. *)
Lemma finditer_directive_other_word (v rest : string) (a : ascii)
    (prev : option ascii) (pos0 skip pos : nat) (m : string * string) :
  all_chars Re.is_word v = true → ¬ In v Re.KEYWORDS →
  Re.is_space a = true →
  In (pos, m) (Re.finditer_directive pos0 skip prev (v +:+ String a rest)) →
  (pos0 + String.length v ≤ pos)%nat.
Proof.
  intros Hv Hnot Ha. destruct v as [|c v].
  - rewrite app_empty_l. destruct m as [cmd path].
    intros (pre & _ & _ & -> & _)%finditer_directive_sound. simpl. lia.
  - assert (Hm : Re.match_directive prev (String c v +:+ String a rest) = None).
    { unfold Re.match_directive. apply first_match_None. intros kw Hkw.
      by apply (match_keyword_other_word prev (String c v)). }
    rewrite all_chars_cons in Hv. apply andb_true_iff in Hv as [Hc Hv].
    rewrite app_cons in *. simpl.
    destruct skip as [|k]; [rewrite Hm|];
      intros H; apply finditer_directive_in_word in H; try done; lia.
Qed.

Lemma finditer_directive_skips_word (pre v rest : string) (a : ascii)
    (prev : option ascii) (pos0 skip pos : nat) (m : string * string) :
  all_chars Re.is_word v = true → ¬ In v Re.KEYWORDS →
  Re.is_space a = true →
  In (pos, m)
     (Re.finditer_directive pos0 skip prev (pre +:+ v +:+ String a rest)) →
  ¬ (pos0 + String.length pre ≤ pos
     ∧ pos < pos0 + String.length pre + String.length v)%nat.
Proof.
  intros Hv Hnot Ha. revert pos0 skip prev.
  induction pre as [|c pre IH]; intros pos0 skip prev.
  - rewrite app_empty_l.
    intros H. apply finditer_directive_other_word in H; try done. simpl. lia.
  - rewrite app_cons. simpl. destruct skip as [|k].
    + destruct (Re.match_directive prev _) as [[[cmd path] len]|].
      * intros [[= <- _] | H]; [lia|]. apply IH in H. lia.
      * intros H. apply IH in H. lia.
    + intros H. apply IH in H. lia.
Qed.

Lemma has_substr_app (pre pat r : string) :
  has_substr pat (pre +:+ pat +:+ r) = true.
Proof.
  induction pre as [|c pre IH].
  - rewrite app_empty_l.
    assert (H : ∀ s, has_substr pat s
                     = Py.startswith s pat
                       || match s with
                          | EmptyString => false
                          | String _ s' => has_substr pat s'
                          end) by (by intros []).
    by rewrite H, startswith_app.
  - rewrite app_cons. simpl. by rewrite IH, orb_true_r.
Qed.

(** A path that the scan of a text adds is the token of a directive whose
    keyword the text holds letter for letter. *)
Lemma scan_shader_text_exact (acc : gset string) (text p : string) :
  p ∈ scan_shader_text acc text →
  p ∈ acc
  ∨ ∃ pre cmd ws path post,
      exact_directive (strip_comments text) pre cmd ws path post
      ∧ p = Py.strip Re.dquote path
      ∧ existsb (λ root, Py.startswith p root) SHADER_ROOTS = true.
Proof.
  unfold scan_shader_text.
  rewrite (elem_of_foldl_pick add_shader_path
             (λ m, let path := Py.strip Re.dquote (snd m) in
                   if existsb (λ root, Py.startswith path root) SHADER_ROOTS
                   then Some path else None))
    by (intros acc' m q; unfold add_shader_path; apply elem_of_add_if).
  intros [H | ([cmd path] & Hm & Hp)]; [by left | right].
  cbv beta zeta in Hp. cbn [snd] in Hp.
  destruct (existsb _ SHADER_ROOTS) eqn:Hroot; [|done].
  injection Hp as <-.
  rewrite (findall_finditer _ 0), list_elem_of_In, in_map_iff in Hm.
  destruct Hm as ([pos [cmd' path']] & [= -> ->] & Hm).
  apply finditer_directive_sound in Hm
    as (pre & ws & post & _ & Hs & Hk & Hb & Hne & Hws & Hne' & Htok & Hpost).
  exists pre, cmd, ws, path, post. split; [|done].
  repeat split; try done.
  destruct post as [|b post]; [done|]. simpl in Hpost.
  by destruct (Re.is_space b).
Qed.

(** A text that holds none of the four keywords letter for letter adds
    nothing. *)
Lemma scan_shader_text_no_keyword (acc : gset string) (text : string) :
  (∀ k, In k Re.KEYWORDS → has_substr k (strip_comments text) = false) →
  scan_shader_text acc text = acc.
Proof.
  intros Hno. unfold scan_shader_text.
  destruct (Re.findall_directive 0 None (strip_comments text))
    as [|[cmd path] l] eqn:Hf; [done|]. exfalso.
  assert (Hin : In (cmd, path)
                   (Re.findall_directive 0 None (strip_comments text)))
    by (rewrite Hf; by left).
  rewrite (findall_finditer _ 0), in_map_iff in Hin.
  destruct Hin as ([pos [cmd' path']] & [= -> ->] & Hm).
  apply finditer_directive_sound in Hm as (pre & ws & post & _ & Hs & Hk & _).
  specialize (Hno cmd Hk). rewrite Hs, has_substr_app in Hno. done.
Qed.

(** C10: the keywords of a shader directive are matched letter for letter,
    for every shader script and at every place of it.  A script that
    writes a keyword in another letter case, followed by spaces and an
    argument, adds no dependency, whatever the argument; so for [animmap]
    and [Map] before a path under [textures/], where [map] adds the path.
    Every command found by the scan is one of the four keywords as written.
    The names of the scripts are selected on their lower-cased form:
    [Scripts/Sky.SHADER] is scanned.  Further, for any text: the scan is
    the scan of [re.finditer] without the positions; where the text, after
    its comments are removed, holds a keyword in another letter case
    followed by white space, no match starts, whatever stands before and
    after; every match starts where the text holds one of the four keywords
    letter for letter, not continuing a word, and takes the token after the
    white space; so every path that the scan adds is the token of such a
    directive, and a text that holds none of the four keywords letter for
    letter adds nothing.  So for [x Map] and [x animmap] before a path
    under [textures/], where [x map] adds the path. *)
Theorem shader_keywords_case_sensitive :
  (∀ k v w arg acc,
     In k Re.KEYWORDS → case_variant v k →
     all_chars Re.is_space w = true → w ≠ EmptyString →
     all_chars (λ c, negb (Re.is_space c)) arg = true →
     scan_shader_text acc (v +:+ w +:+ arg) = acc)
  ∧ (∀ text cmd path,
       In (cmd, path) (Re.findall_directive 0 None (strip_comments text)) →
       In cmd Re.KEYWORDS)
  ∧ scan_shader_text ∅ "animmap textures/sky/up.tga" = ∅
  ∧ scan_shader_text ∅ "Map textures/sky/up.tga" = ∅
  ∧ scan_shader_text ∅ "map textures/sky/up.tga" = {[ "textures/sky/up.tga" ]}
  ∧ (∀ f, is_shader_name f = true
          ↔ Py.startswith (Py.lower f) "scripts/" = true
            ∧ Py.endswith (Py.lower f) ".shader" = true)
  ∧ (∀ f, is_shader_name (Py.lower f) = is_shader_name f)
  ∧ is_shader_name "Scripts/Sky.SHADER" = true
  ∧ gather_shaders Sample.shader_map = Ok {[ "textures/sky/down.tga" ]}
  ∧ (∀ text,
       Re.findall_directive 0 None text
       = List.map snd (Re.finditer_directive 0 0 None text))
  ∧ (∀ text pre v k a rest pos m,
       In k Re.KEYWORDS → case_variant v k → Re.is_space a = true →
       strip_comments text = pre +:+ v +:+ String a rest →
       In (pos, m) (Re.finditer_directive 0 0 None (strip_comments text)) →
       ¬ (String.length pre ≤ pos
          ∧ pos < String.length pre + String.length v)%nat)
  ∧ (∀ text pos cmd path,
       In (pos, (cmd, path))
          (Re.finditer_directive 0 0 None (strip_comments text)) →
       ∃ pre ws post,
         pos = String.length pre
         ∧ exact_directive (strip_comments text) pre cmd ws path post)
  ∧ (∀ acc text p,
       p ∈ scan_shader_text acc text →
       p ∈ acc
       ∨ ∃ pre cmd ws path post,
           exact_directive (strip_comments text) pre cmd ws path post
           ∧ p = Py.strip Re.dquote path
           ∧ existsb (λ root, Py.startswith p root) SHADER_ROOTS = true)
  ∧ (∀ acc text,
       (∀ k, In k Re.KEYWORDS → has_substr k (strip_comments text) = false) →
       scan_shader_text acc text = acc)
  ∧ scan_shader_text ∅ "x Map textures/sky/up.tga" = ∅
  ∧ scan_shader_text ∅ "x animmap textures/sky/up.tga" = ∅
  ∧ scan_shader_text ∅ "x map textures/sky/up.tga"
    = {[ "textures/sky/up.tga" ]}.
Proof.
  split_and!.
  - intros k v w arg acc Hk Hvar Hw Hne Harg.
    destruct (case_variant_word v k Hk Hvar) as [Hv Hnot].
    unfold scan_shader_text.
    rewrite strip_comments_word_spaces by done.
    rewrite findall_other_word; auto using strip_comments_all_chars.
  - intros text cmd path. apply findall_directive_keyword.
  - vm_compute. reflexivity.
  - vm_compute. reflexivity.
  - vm_compute. reflexivity.
  - intros f. unfold is_shader_name. apply andb_true_iff.
  - intros f. unfold is_shader_name. by rewrite lower_idem.
  - reflexivity.
  - vm_compute. reflexivity.
  - intros text. apply findall_finditer.
  - intros text pre v k a rest pos m Hk Hvar Ha Htext.
    destruct (case_variant_word v k Hk Hvar) as [Hv Hnot].
    rewrite Htext. intros H.
    by apply (finditer_directive_skips_word pre v rest a None 0 0 pos m) in H.
  - intros text pos cmd path Hm.
    apply finditer_directive_sound in Hm
      as (pre & ws & post & Hpos & Hs & Hk & Hb & Hne & Hws & Hne' & Htok & Hpost).
    exists pre, ws, post. split; [done|].
    repeat split; try done.
    destruct post as [|b post]; [done|]. simpl in Hpost.
    by destruct (Re.is_space b).
  - apply scan_shader_text_exact.
  - apply scan_shader_text_no_keyword.
  - vm_compute. reflexivity.
  - vm_compute. reflexivity.
  - vm_compute. reflexivity.
Qed.

Lemma shader_keywords_case_sensitive_witness :
  scan_shader_text {[ "textures/sky/down.tga" ]}
                   ("animmap" +:+ " " +:+ "textures/sky/up.tga")
  = {[ "textures/sky/down.tga" ]}
  ∧ scan_shader_text {[ "textures/sky/down.tga" ]} "x Map textures/sky/up.tga"
    = {[ "textures/sky/down.tga" ]}.
Proof.
  split.
  - apply (proj1 shader_keywords_case_sensitive "animMap").
    + right. right. right. left. reflexivity.
    + split; [reflexivity | discriminate].
    + reflexivity.
    + discriminate.
    + reflexivity.
  - destruct shader_keywords_case_sensitive
      as (_ & _ & _ & _ & _ & _ & _ & _ & _ & _ & _ & _ & _ & Hnone & _).
    apply Hnone.
    intros k [<- | [<- | [<- | [<- | []]]]]; reflexivity.
Defined.

(** The no-break space is white space for the pattern: the script of the
    bytes [map], C2 A0, [textures/x.tga] adds the path. *)
Lemma no_break_space_separates :
  Bytes.decode_utf8_points 0 Sample.no_break_space_script
  = [109; 97; 112; 160;
     116; 101; 120; 116; 117; 114; 101; 115; 47; 120; 46; 116; 103; 97]
  ∧ scan_shader_text ∅ (Bytes.decode_utf8_ignore Sample.no_break_space_script)
    = {[ "textures/x.tga" ]}.
Proof. split; vm_compute; reflexivity. Qed.

(** * Further properties of the code *)

(** ** The format-fallback match as a lookup *)

Lemma lower_take_str (n : nat) (s : string) :
  Py.lower (Py.take_str n s) = Py.take_str n (Py.lower s).
Proof.
  revert s. induction n as [|n IH]; intros [|c s]; try reflexivity.
  simpl. by rewrite IH.
Qed.

Lemma lower_drop_last (k : nat) (s : string) :
  Py.lower (Py.drop_last k s) = Py.drop_last k (Py.lower s).
Proof. unfold Py.drop_last. by rewrite lower_take_str, lower_length. Qed.

(** Every candidate is in lower case. *)
Lemma candidates_lower (base c : string) :
  In c (candidates base) → Py.lower c = c.
Proof.
  unfold candidates. set (low := Py.lower base).
  assert (Hlow : Py.lower low = low) by apply lower_idem.
  destruct (negb _); [|destruct (Py.endswith low ".tga");
                       [|destruct (Py.endswith low ".jpg")]];
    simpl; intros H; repeat (destruct H as [<- | H]); try done;
    by rewrite ?lower_app, ?lower_drop_last, ?Hlow.
Qed.

(** The lower-cased base path is always one of the candidates. *)
Lemma candidates_low (base : string) : In (Py.lower base) (candidates base).
Proof.
  unfold candidates.
  destruct (negb _); [|destruct (Py.endswith _ ".tga");
                       [|destruct (Py.endswith _ ".jpg")]];
    simpl; auto.
Qed.

(** The candidates depend on the lower-cased base path only. *)
Lemma candidates_lower_eq (a b : string) :
  Py.lower a = Py.lower b → candidates a = candidates b.
Proof. intros H. unfold candidates. by rewrite H. Qed.

Lemma first_in_is_Some (s : gset string) (cands : list string) :
  is_Some (first_in s cands) ↔ ∃ c, In c cands ∧ c ∈ s.
Proof.
  unfold first_in. induction cands as [|x cands IH]; simpl.
  - split; [by intros [? ?] | by intros (? & [] & _)].
  - case_bool_decide as Hx.
    + split; [intros _; exists x; auto | eauto].
    + rewrite IH. split.
      * intros (c & Hc & Hs). eauto.
      * intros (c & [-> | Hc] & Hs); [done | eauto].
Qed.

Lemma matches_iff (dep : string) (s : gset string) :
  matches dep s ↔ ∃ c, In c (candidates dep) ∧ c ∈ s.
Proof. apply first_in_is_Some. Qed.

(** X1: what [find_in_set] returns is a path of the set, in lower case and
    one of the candidates; it returns [None] exactly when no candidate is in
    the set; and a set that holds the lower-cased base path itself always
    gives a result. *)
Theorem find_in_set_member (base : string) (s : gset string) :
  (∀ c, find_in_set base s = Some c →
        c ∈ s ∧ In c (candidates base) ∧ Py.lower c = c)
  ∧ (find_in_set base s = None ↔ ∀ c, In c (candidates base) → c ∉ s)
  ∧ (Py.lower base ∈ s → ∃ c, find_in_set base s = Some c).
Proof.
  split; [|split].
  - intros c Hfind. apply find_some in Hfind as [Hin Hs].
    apply bool_decide_eq_true in Hs. eauto using candidates_lower.
  - rewrite eq_None_not_Some. fold (matches base s). rewrite matches_iff.
    split.
    + intros Hno c Hc Hs. apply Hno. eauto.
    + intros Hno (c & Hc & Hs). by apply (Hno c).
  - intros Hlow. apply matches_iff. eauto using candidates_low.
Qed.

Lemma find_in_set_member_witness :
  ∃ c, find_in_set "Models/Flags/R_Flag.MD3" {[ "models/flags/r_flag.md3" ]}
       = Some c.
Proof.
  apply (find_in_set_member "Models/Flags/R_Flag.MD3"
           {[ "models/flags/r_flag.md3" ]}).
  apply elem_of_singleton. reflexivity.
Defined.

(** X2: the two image extensions stand for each other: a path that ends in
    [.tga] in any letter case is matched in a set exactly when the same
    path with [.jpg] is. *)
Theorem tga_jpg_interchangeable (a b stem : string) (s : gset string) :
  Py.lower a = stem +:+ ".tga" →
  Py.lower b = stem +:+ ".jpg" →
  (matches a s ↔ matches b s).
Proof.
  intros Ha Hb. rewrite !matches_iff.
  rewrite (candidates_suffix a stem ".tga" ".jpg") by auto.
  rewrite (candidates_suffix b stem ".jpg" ".tga") by auto.
  simpl. split; intros (c & [<- | [<- | []]] & Hs); eauto.
Qed.

Lemma tga_jpg_interchangeable_witness :
  matches "textures/Sky/Up.TGA" {[ "textures/sky/up.jpg" ]}
  ↔ matches "textures/sky/up.jpg" {[ "textures/sky/up.jpg" ]}.
Proof.
  apply (tga_jpg_interchangeable "textures/Sky/Up.TGA" "textures/sky/up.jpg"
           "textures/sky/up"); reflexivity.
Defined.

(** ** The five lists as a whole *)

Lemma bucket_of_dep_lower_eq (tf mf demo patch full : gset string) (a b : string) :
  Py.lower a = Py.lower b →
  bucket_of_dep tf mf demo patch full a = bucket_of_dep tf mf demo patch full b.
Proof.
  intros H.
  unfold bucket_of_dep, ignored, should_ignore, in_texture_folder, find_in_set.
  by rewrite H, (candidates_lower_eq a b H).
Qed.

(** X3: two spellings of one path that differ in letter case only are
    treated alike: both are skipped, or both are put in the same list. *)
Theorem spellings_share_bucket
    (tf mf demo patch full deps : gset string) (a b : string) (bk : bucket) :
  Py.lower a = Py.lower b → a ∈ deps → b ∈ deps →
  let bs := classify_all tf mf demo patch full deps in
  a ∈ bucket_list bk bs ↔ b ∈ bucket_list bk bs.
Proof.
  intros Hlow Ha Hb bs. unfold bs. rewrite !elem_of_classify_all.
  rewrite (bucket_of_dep_lower_eq tf mf demo patch full a b Hlow). tauto.
Qed.

Lemma spellings_share_bucket_witness :
  "Textures/Base/Wall"
    ∈ bucket_list FoundDemo
        (classify_all ∅ ∅ {[ "textures/base/wall.tga" ]} ∅ ∅
                      {[ "Textures/Base/Wall"; "textures/base/wall" ]})
  ↔ "textures/base/wall"
    ∈ bucket_list FoundDemo
        (classify_all ∅ ∅ {[ "textures/base/wall.tga" ]} ∅ ∅
                      {[ "Textures/Base/Wall"; "textures/base/wall" ]}).
Proof.
  apply (spellings_share_bucket ∅ ∅ {[ "textures/base/wall.tga" ]} ∅ ∅
           {[ "Textures/Base/Wall"; "textures/base/wall" ]}
           "Textures/Base/Wall" "textures/base/wall" FoundDemo).
  - reflexivity.
  - apply elem_of_union_l, elem_of_singleton. reflexivity.
  - apply elem_of_union_r, elem_of_singleton. reflexivity.
Defined.

Lemma bucket_of_dep_is_Some (tf mf demo patch full : gset string) (d : string) :
  is_Some (bucket_of_dep tf mf demo patch full d) ↔ ignored d = false.
Proof.
  unfold bucket_of_dep. destruct (ignored d).
  - split; [by intros [? ?] | done].
  - split; [done | intros _].
    repeat match goal with
           | |- is_Some (if ?c then _ else _) => destruct c
           end; eauto.
Qed.

(** Filtering a list by each value of a labelling splits it. *)
Lemma filter_buckets_perm (f : string → option bucket) (l : list string) :
  filter (λ d, f d = Some FoundMap) l
  ++ filter (λ d, f d = Some FoundDemo) l
  ++ filter (λ d, f d = Some FoundPatch) l
  ++ filter (λ d, f d = Some FoundFull) l
  ++ filter (λ d, f d = Some Missing) l
  ≡ₚ filter (λ d, is_Some (f d)) l.
Proof.
  induction l as [|d l IH]; [done|].
  rewrite !filter_cons.
  destruct (f d) as [[]|] eqn:Hd; simpl;
    repeat (case_decide; simplify_eq); try (by destruct (is_Some_None (A:=bucket)));
    try (exfalso; eauto; fail);
    rewrite <- IH; solve_Permutation.
Qed.

Lemma StronglySorted_filter_list {A} (R : relation A) (P : A → Prop)
    `{!∀ x, Decision (P x)} (l : list A) :
  StronglySorted R l → StronglySorted R (filter P l).
Proof.
  induction 1 as [|x l Hl IH Hx]; [constructor|].
  rewrite filter_cons. case_decide; [|done].
  constructor; [done|].
  apply Forall_forall. intros y [_ Hy]%list_elem_of_filter.
  by apply (proj1 (Forall_forall _ _) Hx).
Qed.

(** X4: the five lists together hold every dependency that the ignore
    filters let through, each once, and nothing else; and each list is in
    ascending order of code points. *)
Theorem buckets_partition (tf mf demo patch full deps : gset string) :
  let bs := classify_all tf mf demo patch full deps in
  found_map bs ++ found_demo bs ++ found_patch bs ++ found_full bs
    ++ missing bs
  ≡ₚ filter (λ d, ignored d = false) (elements deps)
  ∧ ∀ b, StronglySorted String.le (bucket_list b bs).
Proof.
  intros bs. split.
  - change (found_map bs) with (bucket_list FoundMap bs).
    change (found_demo bs) with (bucket_list FoundDemo bs).
    change (found_patch bs) with (bucket_list FoundPatch bs).
    change (found_full bs) with (bucket_list FoundFull bs).
    change (missing bs) with (bucket_list Missing bs).
    unfold bs. rewrite !classify_all_bucket_list, filter_buckets_perm.
    rewrite (list_filter_iff _ (λ d, ignored d = false))
      by (intros d; apply bucket_of_dep_is_Some).
    by rewrite sorted_perm.
  - intros b. unfold bs. rewrite classify_all_bucket_list.
    apply StronglySorted_filter_list, StronglySorted_merge_sort; apply _.
Qed.

(** ** Growing the demo and patch archives *)

Lemma truthy_mono (dep : string) (s s' : gset string) :
  s ⊆ s' →
  Py.truthy (find_in_set dep s) = true → Py.truthy (find_in_set dep s') = true.
Proof.
  intros Hsub. destruct dep as [|a dep].
  - unfold find_in_set.
    change (candidates EmptyString) with [".tga"; ".jpg"; EmptyString].
    simpl. repeat case_bool_decide; simpl; try done;
      exfalso; eauto.
  - rewrite !truthy_matches, !bool_decide_eq_true, !matches_iff by done.
    intros (c & Hc & Hs). eauto.
Qed.

Lemma bucket_full_mono (tf mf demo demo' patch patch' full : gset string)
    (d : string) :
  demo ⊆ demo' → patch ⊆ patch' →
  bucket_of_dep tf mf demo' patch' full d = Some FoundFull →
  bucket_of_dep tf mf demo patch full d = Some FoundFull.
Proof.
  intros Hdemo Hpatch. unfold bucket_of_dep.
  destruct (ignored d); [done|].
  destruct (in_texture_folder tf d || Py.truthy (find_in_set d mf)); [done|].
  destruct (Py.truthy (find_in_set d demo')) eqn:Hd'; [done|].
  destruct (Py.truthy (find_in_set d demo)) eqn:Hd.
  { apply (truthy_mono d demo demo' Hdemo) in Hd. congruence. }
  destruct (Py.truthy (find_in_set d patch')) eqn:Hp'; [done|].
  destruct (Py.truthy (find_in_set d patch)) eqn:Hp; [|done].
  apply (truthy_mono d patch patch' Hpatch) in Hp. congruence.
Qed.

Lemma length_filter_impl {A} (P Q : A → Prop) `{!∀ x, Decision (P x)}
    `{!∀ x, Decision (Q x)} (l : list A) :
  (∀ x, P x → Q x) →
  (List.length (filter P l) ≤ List.length (filter Q l))%nat.
Proof.
  intros HPQ. induction l as [|x l IH]; [done|].
  rewrite !filter_cons. destruct (decide (P x)) as [HP | HP].
  - rewrite decide_True by auto. simpl. lia.
  - destruct (decide (Q x)); simpl; lia.
Qed.

(** X5: files added to the demo index or to the patch index never add a
    dependency to the list of those found only in the full archive; a
    verdict of the top tier stays. *)
Theorem full_only_count_antitone
    (tf mf demo demo' patch patch' full deps : gset string) :
  demo ⊆ demo' → patch ⊆ patch' →
  let bs := classify_all tf mf demo patch full deps in
  let bs' := classify_all tf mf demo' patch' full deps in
  (List.length (found_full bs') ≤ List.length (found_full bs))%nat
  ∧ (final_verdict bs = ResultYes → final_verdict bs' = ResultYes).
Proof.
  intros Hdemo Hpatch bs bs'.
  assert (Hlen : (List.length (found_full bs') ≤ List.length (found_full bs))%nat).
  { change (found_full bs') with (bucket_list FoundFull bs').
    change (found_full bs) with (bucket_list FoundFull bs).
    unfold bs, bs'. rewrite !classify_all_bucket_list.
    apply length_filter_impl. intros d.
    by apply bucket_full_mono. }
  split; [done|]. unfold final_verdict.
  destruct (List.length (found_full bs)) as [|n] eqn:Hn; [|simpl].
  - replace (List.length (found_full bs')) with 0%nat by lia. done.
  - by destruct (n <=? 4)%nat.
Qed.

Lemma full_only_count_antitone_witness :
  (List.length (found_full (classify_all ∅ ∅ {[ "sound/a.wav" ]} ∅
                              {[ "sound/a.wav" ]} {[ "sound/a.wav" ]}))
   ≤ List.length (found_full (classify_all ∅ ∅ ∅ ∅
                                {[ "sound/a.wav" ]} {[ "sound/a.wav" ]})))%nat.
Proof.
  apply (full_only_count_antitone ∅ ∅ ∅ {[ "sound/a.wav" ]} ∅ ∅
           {[ "sound/a.wav" ]} {[ "sound/a.wav" ]});
    apply empty_subseteq.
Defined.

(** ** A folder of the map covers every texture under it *)

Lemma split_first_piece (sub rest : string) :
  Py.contains_char "/"%char sub = false →
  Py.split "/"%char (sub +:+ "/" +:+ rest) = sub :: Py.split "/"%char rest.
Proof.
  induction sub as [|c sub IH]; intros Hsub; [reflexivity|].
  simpl in Hsub. apply orb_false_iff in Hsub as [Hc Hsub].
  rewrite app_cons. simpl. rewrite Hc, (IH Hsub). reflexivity.
Qed.

(** X6: when the map archive holds any file under [textures/sub/], every
    dependency that the ignore filters let through and whose lower-cased
    path starts with [textures/sub/] is found in the map, whether or not
    the archive holds a file of that name. *)
Theorem map_folder_covers_textures
    (map_files demo patch full deps : gset string) (sub rest dep : string) :
  Py.contains_char "/"%char sub = false →
  "textures/" +:+ sub +:+ "/" +:+ rest ∈ map_files →
  dep ∈ deps → ignored dep = false →
  Py.startswith (Py.lower dep) ("textures/" +:+ sub +:+ "/") = true →
  dep ∈ found_map (classify_all (get_texture_folders map_files) map_files
                                demo patch full deps).
Proof.
  intros Hsub Hfile Hdep Hkept Hstart.
  apply (elem_of_classify_all _ _ _ _ _ _ _ FoundMap). split; [done|].
  unfold bucket_of_dep. rewrite Hkept.
  replace (in_texture_folder (get_texture_folders map_files) dep) with true;
    [done|].
  symmetry. apply in_texture_folder_iff.
  exists ("textures/" +:+ sub +:+ "/"). split; [|done].
  apply elem_of_get_texture_folders. exists (sub +:+ "/" +:+ rest).
  split; [done|]. by rewrite split_first_piece.
Qed.

Lemma map_folder_covers_textures_witness :
  "textures/Foo/Missing_Wall"
    ∈ found_map (classify_all (get_texture_folders {[ "textures/foo/a.jpg" ]})
                              {[ "textures/foo/a.jpg" ]} ∅ ∅ ∅
                              {[ "textures/Foo/Missing_Wall" ]}).
Proof.
  apply (map_folder_covers_textures {[ "textures/foo/a.jpg" ]} ∅ ∅ ∅
           {[ "textures/Foo/Missing_Wall" ]} "foo" "a.jpg").
  - reflexivity.
  - apply elem_of_singleton. reflexivity.
  - apply elem_of_singleton. reflexivity.
  - reflexivity.
  - reflexivity.
Defined.

(** ** Loading the archives *)

Lemma load_zip_list_Ok (fs : gmap string fsnode) (p : string) :
  fs !! p ≠ Some FsOther →
  ∃ s, load_zip_list fs p = Ok s
       ∧ ∀ x, x ∈ s ↔ ∃ z, fs !! p = Some (FsZip z) ∧ x ∈ lower_names z.
Proof.
  intros Hp. unfold load_zip_list. destruct (fs !! p) as [[z|]|]; [|done|].
  - exists (lower_names z). split; [done|]. intros x. split.
    + intros Hx. eauto.
    + by intros (z' & [= <-] & Hx).
  - exists ∅. split; [done|]. intros x. split.
    + by intros ?%not_elem_of_empty.
    + by intros (z' & ? & _).
Qed.

Lemma load_zip_list_other (fs : gmap string fsnode) (p : string) :
  fs !! p = Some FsOther → load_zip_list fs p = Err BadZipFile.
Proof. intros Hp. unfold load_zip_list. by rewrite Hp. Qed.

Lemma foldl_patch_Err (fs : gmap string fsnode) (l : list string) (e : error) :
  foldl (fun acc p =>
           bind acc (fun patch_files =>
           bind (load_zip_list fs p) (fun files => Ok (patch_files ∪ files))))
        (Err e) l = Err e.
Proof. induction l as [|p l IH]; [done | exact IH]. Qed.

Lemma foldl_patch_Ok (fs : gmap string fsnode) (l : list string)
    (acc : gset string) :
  (∀ p, p ∈ l → fs !! p ≠ Some FsOther) →
  ∃ s,
    foldl (fun acc p =>
             bind acc (fun patch_files =>
             bind (load_zip_list fs p) (fun files => Ok (patch_files ∪ files))))
          (Ok acc) l = Ok s
    ∧ ∀ x, x ∈ s ↔ x ∈ acc
                   ∨ ∃ p z, p ∈ l ∧ fs !! p = Some (FsZip z) ∧ x ∈ lower_names z.
Proof.
  revert acc. induction l as [|p l IH]; intros acc Hl.
  - exists acc. split; [done|]. intros x. split; [by left|].
    intros [Hx | (p & z & Hp & _)]; [done | by inversion Hp].
  - destruct (load_zip_list_Ok fs p) as (files & Hload & Hfiles).
    { apply Hl. constructor. }
    destruct (IH (acc ∪ files)) as (s & Hs & Hmem).
    { intros q Hq. apply Hl. by constructor. }
    exists s. split; [simpl; by rewrite Hload|].
    intros x. rewrite Hmem, elem_of_union, Hfiles. split.
    + intros [[Hx | (z & Hz & Hx)] | (q & z & Hq & Hz & Hx)];
        [by left | right; exists p, z | right; exists q, z];
        (split; [by constructor || constructor | done]).
    + intros [Hx | (q & z & [-> | Hq]%elem_of_cons & Hz & Hx)];
        [by left; left | left; right; eauto | right; eauto].
Qed.

Lemma foldl_patch_other (fs : gmap string fsnode) (l : list string)
    (acc : gset string) (p : string) :
  p ∈ l → fs !! p = Some FsOther →
  foldl (fun acc p =>
           bind acc (fun patch_files =>
           bind (load_zip_list fs p) (fun files => Ok (patch_files ∪ files))))
        (Ok acc) l = Err BadZipFile.
Proof.
  intros Hin Hp. revert acc. induction l as [|q l IH]; intros acc.
  - by inversion Hin.
  - simpl.
    assert (Hq : fs !! q = Some FsOther ∨ fs !! q ≠ Some FsOther).
    { destruct (fs !! q) as [[z|]|]; [by right | by left | by right]. }
    destruct Hq as [Hq | Hq].
    + rewrite (load_zip_list_other fs q Hq). simpl. apply foldl_patch_Err.
    + destruct (load_zip_list_Ok fs q Hq) as (files & -> & _). simpl.
      apply elem_of_cons in Hin as [-> | Hin]; [congruence | by apply IH].
Qed.

(** X7: the patch index is the union of the indices of the patch archives
    that exist, an absent one adding nothing; and a patch path that holds
    something other than an archive makes the loading fail. *)
Theorem patch_index_union (fs : gmap string fsnode) :
  ((∀ p, p ∈ POINT_PAKS → fs !! p ≠ Some FsOther) →
     ∃ patch_files,
       load_patch_files fs = Ok patch_files
       ∧ ∀ x, x ∈ patch_files
              ↔ ∃ p z, p ∈ POINT_PAKS ∧ fs !! p = Some (FsZip z)
                       ∧ x ∈ lower_names z)
  ∧ (∀ p, p ∈ POINT_PAKS → fs !! p = Some FsOther →
       load_patch_files fs = Err BadZipFile).
Proof.
  split.
  - intros Hall. destruct (foldl_patch_Ok fs POINT_PAKS ∅ Hall) as (s & Hs & Hmem).
    exists s. split; [exact Hs|]. intros x. rewrite Hmem. split.
    + intros [Hx | H]; [by apply not_elem_of_empty in Hx | done].
    + by right.
  - intros p Hin Hp. by apply (foldl_patch_other fs POINT_PAKS ∅ p).
Qed.

Lemma patch_index_union_witness :
  load_patch_files {[ "baseq3/pak3.pk3" := FsOther ]} = Err BadZipFile
  ∧ ∃ patch_files,
      load_patch_files {[ "baseq3/pak2.pk3" := FsZip Sample.scenario_a ]}
      = Ok patch_files
      ∧ ∀ x, x ∈ patch_files
             ↔ ∃ p z, p ∈ POINT_PAKS
                      ∧ ({[ "baseq3/pak2.pk3" := FsZip Sample.scenario_a ]}
                           : gmap string fsnode) !! p = Some (FsZip z)
                      ∧ x ∈ lower_names z.
Proof.
  split.
  - apply (proj2 (patch_index_union {[ "baseq3/pak3.pk3" := FsOther ]})
             "baseq3/pak3.pk3").
    + unfold POINT_PAKS. do 2 apply list_elem_of_further. apply list_elem_of_here.
    + reflexivity.
  - apply (proj1 (patch_index_union
                    {[ "baseq3/pak2.pk3" := FsZip Sample.scenario_a ]})).
    intros p _. destruct (decide (p = "baseq3/pak2.pk3")) as [-> | Hne].
    + rewrite lookup_singleton_eq. discriminate.
    + rewrite lookup_singleton_ne by done. discriminate.
Defined.

(** ** The script as a whole *)

Lemma find_in_set_empty (dep : string) : find_in_set dep ∅ = None.
Proof.
  apply eq_None_not_Some. fold (matches dep ∅). rewrite matches_iff.
  intros (c & _ & Hc). by apply not_elem_of_empty in Hc.
Qed.

Lemma filter_none {A} (P : A → Prop) `{!∀ x, Decision (P x)} (l : list A) :
  (∀ x, ¬ P x) → filter P l = [].
Proof.
  intros HP. induction l as [|x l IH]; [done|].
  by rewrite filter_cons_False.
Qed.

Lemma found_full_without_full (tf mf demo patch deps : gset string) :
  found_full (classify_all tf mf demo patch ∅ deps) = [].
Proof.
  change (found_full ?bs) with (bucket_list FoundFull bs).
  rewrite classify_all_bucket_list. apply filter_none.
  intros d. unfold bucket_of_dep. rewrite find_in_set_empty. simpl.
  repeat match goal with
         | |- (if ?c then _ else _) ≠ _ => destruct c
         end; done.
Qed.

(** X8: the verdict counts only what the full archive holds: when the full
    archive is absent, a run that completes finds nothing in it and gives
    the top tier, whatever the map refers to and however much is missing. *)
Theorem absent_full_archive_gives_yes
    (fs : gmap string fsnode) (z : ZipFile) (bs : buckets) (v : verdict) :
  fs !! FULL_PAK0 = None →
  main fs z = Ok (bs, v) →
  found_full bs = [] ∧ v = ResultYes.
Proof.
  intros Hfull. unfold main.
  destruct (load_zip_list fs DEMO_PAK0) as [demo|]; [simpl|done].
  unfold load_zip_list at 1. rewrite Hfull. simpl.
  destruct (load_patch_files fs) as [patch|]; [simpl|done].
  unfold check_map. destruct (gather_deps z) as [[deps mf]|]; [simpl|done].
  intros [= <- <-]. unfold final_verdict.
  by rewrite found_full_without_full.
Qed.

Lemma absent_full_archive_gives_yes_witness :
  ∃ bs,
    main ∅ Sample.plain_map = Ok (bs, ResultYes)
    ∧ found_full bs = [] ∧ missing bs = ["textures/base/wall"].
Proof.
  eexists. split; [vm_compute; reflexivity|]. split; [|reflexivity].
  refine (proj1 (absent_full_archive_gives_yes ∅ Sample.plain_map _ ResultYes
                   _ _)).
  - reflexivity.
  - vm_compute. reflexivity.
Defined.

(** X9: archives that are absent are no error: when none of the nine
    archive paths holds something other than an archive, the script runs
    the map against the indices loaded, so that it completes exactly when
    [gather_deps] does; and one path that holds something else stops the
    script, whatever the map is. *)
Theorem main_archives (fs : gmap string fsnode) (z : ZipFile) :
  ((∀ p, p ∈ DEMO_PAK0 :: FULL_PAK0 :: POINT_PAKS → fs !! p ≠ Some FsOther) →
     ∃ demo patch full,
       load_zip_list fs DEMO_PAK0 = Ok demo
       ∧ load_zip_list fs FULL_PAK0 = Ok full
       ∧ load_patch_files fs = Ok patch
       ∧ main fs z = check_map z demo patch full
       ∧ ((∃ r, main fs z = Ok r) ↔ ∃ d, gather_deps z = Ok d))
  ∧ (∀ p, p ∈ DEMO_PAK0 :: FULL_PAK0 :: POINT_PAKS →
       fs !! p = Some FsOther → main fs z = Err BadZipFile).
Proof.
  split.
  - intros Hall.
    destruct (load_zip_list_Ok fs DEMO_PAK0) as (demo & Hdemo & _).
    { apply Hall. constructor. }
    destruct (load_zip_list_Ok fs FULL_PAK0) as (full & Hfull & _).
    { apply Hall. do 2 constructor. }
    destruct (foldl_patch_Ok fs POINT_PAKS ∅) as (patch & Hpatch & _).
    { intros p Hp. apply Hall. by do 2 constructor. }
    exists demo, patch, full. unfold main, load_patch_files.
    rewrite Hdemo, Hfull, Hpatch. simpl.
    repeat split; try done.
    + unfold check_map. destruct (gather_deps z) as [[deps mf]|]; simpl.
      * eauto.
      * by intros [? ?].
    + unfold check_map. intros [d Hd]. rewrite Hd. destruct d. simpl. eauto.
  - intros p Hin Hp. unfold main.
    apply elem_of_cons in Hin as [-> | Hin].
    { by rewrite (load_zip_list_other fs DEMO_PAK0 Hp). }
    destruct (load_zip_list fs DEMO_PAK0) as [demo | e] eqn:Hdemo; simpl.
    2:{ unfold load_zip_list in Hdemo.
        destruct (fs !! DEMO_PAK0) as [[?|]|]; congruence. }
    apply elem_of_cons in Hin as [-> | Hin].
    { by rewrite (load_zip_list_other fs FULL_PAK0 Hp). }
    destruct (load_zip_list fs FULL_PAK0) as [full | e] eqn:Hfull; simpl.
    2:{ unfold load_zip_list in Hfull.
        destruct (fs !! FULL_PAK0) as [[?|]|]; congruence. }
    unfold load_patch_files.
    by rewrite (foldl_patch_other fs POINT_PAKS ∅ p Hin Hp).
Qed.

Lemma main_archives_witness :
  main {[ "baseq3/pak0-full.pk3" := FsOther ]} Sample.scenario_a
  = Err BadZipFile.
Proof.
  apply (proj2 (main_archives {[ "baseq3/pak0-full.pk3" := FsOther ]}
                  Sample.scenario_a) "baseq3/pak0-full.pk3").
  - apply list_elem_of_further, list_elem_of_here.
  - reflexivity.
Defined.

(** ** What the extractors gather *)

Lemma foldl_preserves_elem {A S : Type} (I : S → Prop) (f : S → A → S)
    (l : list A) (acc : S) :
  (∀ acc x, In x l → I acc → I (f acc x)) → I acc → I (foldl f acc l).
Proof.
  revert acc. induction l as [|x l IH]; intros acc Hf Hacc; simpl; [done|].
  apply IH.
  - intros acc' y Hy. apply Hf. by right.
  - apply Hf; [by left | done].
Qed.

Lemma span_fst_all (p : ascii → bool) (s : string) :
  all_chars p (fst (Re.span p s)) = true.
Proof.
  induction s as [|c s IH]; [done|]. simpl.
  destruct (p c) eqn:Hc; [|done].
  destruct (Re.span p s) as [a b]. simpl in *.
  by rewrite all_chars_cons, Hc.
Qed.

Lemma no_char_all_chars (q : ascii) (s : string) :
  all_chars (λ c, negb (Ascii.eqb c q)) s = true
  → Py.contains_char q s = false.
Proof.
  induction s as [|c s IH]; [done|].
  rewrite all_chars_cons. intros [Hc Hs]%andb_true_iff.
  simpl. apply negb_true_iff in Hc. by rewrite Hc, IH.
Qed.

Lemma match_entity_value (key s v : string) (n : nat) :
  Re.match_entity key s = Some (v, n) →
  v ≠ EmptyString ∧ Py.contains_char Re.dquote v = false.
Proof.
  unfold Re.match_entity.
  destruct (Re.strip_prefix _ s) as [r1|]; [|done].
  destruct (Re.span Re.is_space r1) as [ws r2].
  destruct r2 as [|q r3]; [done|].
  destruct (Ascii.eqb q Re.dquote); [|done].
  pose proof (span_fst_all (λ c, negb (Ascii.eqb c Re.dquote)) r3) as Hall.
  destruct (Re.span _ r3) as [val r4]. simpl in Hall.
  destruct val as [|c val]; [done|]. destruct r4; [done|].
  intros [= <- _]. split; [done|]. by apply no_char_all_chars.
Qed.

Lemma finditer_entity_values (key : string) (skip : nat) (s v : string) :
  In v (Re.finditer_entity key skip s) →
  v ≠ EmptyString ∧ Py.contains_char Re.dquote v = false.
Proof.
  revert skip. induction s as [|c s IH]; intros skip; [done|].
  simpl. destruct skip as [|k]; [|apply IH].
  destruct (Re.match_entity key (String c s)) as [[v' n]|] eqn:Hm; [|apply IH].
  intros [<- | H]; [exact (match_entity_value _ _ _ _ Hm) | by apply IH in H].
Qed.

(** X10: a path gathered from the entities is not empty, holds no double
    quote and does not start with a star: inline brush models are left
    out. *)
Theorem entity_paths_clean (data : list Byte.byte) (off length : Z) (p : string) :
  p ∈ gather_entities data off length →
  p ≠ EmptyString
  ∧ Py.startswith p "*" = false
  ∧ Py.contains_char Re.dquote p = false.
Proof.
  revert p. unfold gather_entities.
  apply (foldl_preserves
           (λ acc : gset string, ∀ p, p ∈ acc →
              p ≠ EmptyString ∧ Py.startswith p "*" = false
              ∧ Py.contains_char Re.dquote p = false)).
  - intros acc key Hacc. apply foldl_preserves_elem; [|done].
    intros acc' v Hv Hacc' p. unfold add_entity_value.
    destruct (Py.nonempty v && negb (Py.startswith v "*")) eqn:Hcond.
    + intros [Hp | ->%elem_of_singleton]%elem_of_union; [by apply Hacc'|].
      apply andb_true_iff in Hcond as [_ Hstar%negb_true_iff].
      apply finditer_entity_values in Hv as [? ?]. done.
    + apply Hacc'.
  - intros p Hp. by apply not_elem_of_empty in Hp.
Qed.

Lemma entity_paths_clean_witness :
  Py.startswith "models/a.md3" "*" = false
  ∧ elements (gather_entities Sample.entity_text 0 36) = ["models/a.md3"].
Proof.
  split; [|vm_compute; reflexivity].
  apply (entity_paths_clean Sample.entity_text 0 36 "models/a.md3").
  apply (bool_decide_unpack _). vm_compute. exact I.
Defined.

Lemma length_slice_window {A} (l : list A) (start : Z) :
  (List.length (Py.slice l start (start + 64)) ≤ 64)%nat.
Proof.
  unfold Py.slice, Py.norm_index. rewrite length_take.
  destruct (Z.ltb_spec start 0), (Z.ltb_spec (start + 64) 0); lia.
Qed.

Lemma length_before_null (b : list Byte.byte) :
  (List.length (Bytes.before_null b) ≤ List.length b)%nat.
Proof.
  induction b as [|x b IH]; [done|]. simpl.
  destruct (Byte.eqb x Byte.x00); simpl; lia.
Qed.

Lemma length_decode_ascii_ignore (b : list Byte.byte) :
  (String.length (Bytes.decode_ascii_ignore b) ≤ List.length b)%nat.
Proof.
  induction b as [|x b IH]; [done|]. simpl.
  destruct (Bytes.to_Z x <? 128); simpl; lia.
Qed.

Lemma decoded_byte_char (x : Byte.byte) :
  x ≠ Byte.x00 → (Bytes.to_Z x <? 128) = true →
  name_char (ascii_of_byte x) = true.
Proof.
  intros H0 H128. destruct x; try reflexivity; try done; discriminate H128.
Qed.

Lemma decode_ascii_ignore_chars (b : list Byte.byte) :
  Forall (λ x, x ≠ Byte.x00) b →
  all_chars name_char (Bytes.decode_ascii_ignore b) = true.
Proof.
  induction 1 as [|x b Hx Hb IH]; [done|]. simpl.
  destruct (Bytes.to_Z x <? 128) eqn:H128; [|done].
  rewrite all_chars_cons, IH, andb_true_r. by apply decoded_byte_char.
Qed.

(** X11: a texture name gathered from the lump is not empty, has at most
    64 characters, and every character of it has a code from 1 to 127. *)
Theorem texture_names_bounded (data : list Byte.byte) (off L : Z) (name : string) :
  name ∈ gather_textures data off L →
  name ≠ EmptyString
  ∧ (String.length name ≤ 64)%nat
  ∧ all_chars name_char name = true.
Proof.
  intros (Hne & i & _ & ->)%elem_of_gather_textures.
  split; [done|]. unfold texture_name, record_bytes. split.
  - etrans; [apply length_decode_ascii_ignore|].
    etrans; [apply length_before_null|].
    apply length_slice_window.
  - apply decode_ascii_ignore_chars.
    by destruct (before_null_split (Py.slice data (off + i * 72) (off + i * 72 + 64)))
      as (rest & _ & Hall & _).
Qed.

Lemma texture_names_bounded_witness :
  (String.length "textures/foo/bar" ≤ 64)%nat.
Proof.
  apply (texture_names_bounded (Sample.bsp EmptyString ["textures/foo/bar"])
           144 72 "textures/foo/bar").
  apply (bool_decide_unpack _). vm_compute. exact I.
Defined.

Lemma rev_app_rev_app (s a b : string) :
  String.rev_app (String.rev_app s a) b = String.rev_app a (s +:+ b).
Proof.
  revert a b. induction s as [|c s IH]; intros a b; [reflexivity|].
  simpl. rewrite IH. reflexivity.
Qed.

Lemma rev_involutive_str (s : string) : String.rev (String.rev s) = s.
Proof.
  unfold String.rev. rewrite rev_app_rev_app. simpl. apply app_empty_r.
Qed.

Lemma all_chars_rev_app (p : ascii → bool) (s a : string) :
  all_chars p (String.rev_app s a) = all_chars p s && all_chars p a.
Proof.
  revert a. induction s as [|c s IH]; intros a; [reflexivity|].
  simpl. rewrite IH, !all_chars_cons.
  destruct (p c), (all_chars p s), (all_chars p a); reflexivity.
Qed.

Lemma all_chars_lstrip (p : ascii → bool) (c : ascii) (s : string) :
  all_chars p s = true → all_chars p (Py.lstrip c s) = true.
Proof.
  induction s as [|a s IH]; [done|]. simpl.
  destruct (Ascii.eqb a c); [|done].
  rewrite all_chars_cons. intros [_ ?]%andb_true_iff. auto.
Qed.

Lemma all_chars_strip (p : ascii → bool) (c : ascii) (s : string) :
  all_chars p s = true → all_chars p (Py.strip c s) = true.
Proof.
  intros Hs. unfold Py.strip, Py.rstrip, String.rev.
  rewrite all_chars_rev_app, andb_true_r.
  apply all_chars_lstrip. rewrite all_chars_rev_app, andb_true_r.
  by apply all_chars_lstrip.
Qed.

Lemma head_lstrip (c : ascii) (s : string) :
  Re.head (Py.lstrip c s) ≠ Some c.
Proof.
  induction s as [|a s IH]; [done|]. simpl.
  destruct (Ascii.eqb_spec a c); [done|]. simpl. congruence.
Qed.

Lemma last_char_strip (c : ascii) (s : string) :
  Re.last_char (Py.strip c s) ≠ Some c.
Proof.
  unfold Re.last_char, Py.strip, Py.rstrip.
  rewrite rev_involutive_str. apply head_lstrip.
Qed.

Lemma match_directive_token (prev : option ascii) (s cmd path : string)
    (len : nat) :
  Re.match_directive prev s = Some (cmd, path, len) →
  all_chars (λ c, negb (Re.is_space c)) path = true.
Proof.
  unfold Re.match_directive. generalize Re.KEYWORDS.
  intros l. induction l as [|kw l IH]; simpl; [done|].
  destruct (Re.match_keyword prev s kw) as [[[c1 p1] l1]|] eqn:Hk; [|done].
  intros [= -> -> ->]. unfold Re.match_keyword in Hk.
  destruct (Re.word_boundary prev _); [|done].
  destruct (Re.strip_prefix kw _) as [r1|]; [|done].
  destruct (Re.word_boundary _ _); [|done].
  destruct (Re.span Re.is_space r1) as [ws r2].
  pose proof (span_fst_all (λ c, negb (Re.is_space c)) r2) as Hall.
  destruct (Re.span _ r2) as [tok r3]. simpl in Hall.
  destruct ws; [done|]. destruct tok; [done|]. by injection Hk as _ <- _.
Qed.

Lemma findall_directive_token (text : string) (skip : nat)
    (prev : option ascii) (m : string * string) :
  In m (Re.findall_directive skip prev text) →
  all_chars (λ c, negb (Re.is_space c)) (snd m) = true.
Proof.
  revert skip prev. induction text as [|c text IH]; intros skip prev; [done|].
  simpl. destruct skip as [|k]; [|apply IH].
  destruct (Re.match_directive prev (String c text)) as [[[cmd path] len]|]
    eqn:Hm; [|apply IH].
  intros [<- | H]; [|by apply IH in H].
  exact (match_directive_token _ _ _ _ _ Hm).
Qed.

(** X12: a path gathered from the shader scripts starts with [textures/],
    [models/] or [sound/], holds no white space, and does not end with a
    double quote. *)
Theorem shader_paths_shape (z : ZipFile) (shader_deps : gset string)
    (p : string) :
  gather_shaders z = Ok shader_deps →
  p ∈ shader_deps →
  (∃ root, In root SHADER_ROOTS ∧ Py.startswith p root = true)
  ∧ all_chars (λ c, negb (Re.is_space c)) p = true
  ∧ Re.last_char p ≠ Some Re.dquote.
Proof.
  intros Hsh. revert p. revert Hsh. unfold gather_shaders.
  apply (scan_shader_files_preserves
           (λ acc : gset string, ∀ p, p ∈ acc →
              (∃ root, In root SHADER_ROOTS ∧ Py.startswith p root = true)
              ∧ all_chars (λ c, negb (Re.is_space c)) p = true
              ∧ Re.last_char p ≠ Some Re.dquote)).
  - intros acc text Hacc. unfold scan_shader_text.
    apply foldl_preserves_elem; [|done].
    intros acc' m Hm Hacc' p. unfold add_shader_path.
    destruct (existsb _ SHADER_ROOTS) eqn:Hroot; [|apply Hacc'].
    intros [Hp | ->%elem_of_singleton]%elem_of_union; [by apply Hacc'|].
    apply existsb_exists in Hroot. split; [done|]. split.
    + apply all_chars_strip. by apply findall_directive_token in Hm.
    + apply last_char_strip.
  - intros p Hp. by apply not_elem_of_empty in Hp.
Qed.

Lemma shader_paths_shape_witness :
  ∃ root, In root SHADER_ROOTS
          ∧ Py.startswith "textures/sky/down.tga" root = true.
Proof.
  apply (shader_paths_shape Sample.shader_map {[ "textures/sky/down.tga" ]}
           "textures/sky/down.tga").
  - vm_compute. reflexivity.
  - apply elem_of_singleton. reflexivity.
Defined.

Lemma split_pieces_no_sep (sep : ascii) (s piece : string) :
  In piece (Py.split sep s) → Py.contains_char sep piece = false.
Proof.
  revert piece. induction s as [|c s IH]; intros piece.
  - by intros [<- | []].
  - simpl. destruct (Ascii.eqb c sep) eqn:Hc.
    + intros [<- | H]; [done | by apply IH].
    + destruct (Py.split sep s) as [|h t]; simpl.
      * intros [<- | []]. simpl. by rewrite Hc.
      * intros [<- | H]; [|apply IH; by right].
        simpl. rewrite Hc. apply IH. by left.
Qed.

(** X13: every prefix of the texture-folder index is [textures/], one path
    component without slash, and a slash. *)
Theorem texture_folder_shape (map_files : gset string) (p : string) :
  p ∈ get_texture_folders map_files →
  ∃ sub, p = "textures/" +:+ sub +:+ "/"
         ∧ Py.contains_char "/"%char sub = false.
Proof.
  intros (r & _ & ->)%elem_of_get_texture_folders.
  exists (hd EmptyString (Py.split "/"%char r)). split; [done|].
  apply (split_pieces_no_sep _ r).
  pose proof (split_nonempty "/"%char r).
  destruct (Py.split "/"%char r); [done | by left].
Qed.

Lemma texture_folder_shape_witness :
  ∃ sub, "textures/foo/" = "textures/" +:+ sub +:+ "/"
         ∧ Py.contains_char "/"%char sub = false.
Proof.
  apply (texture_folder_shape {[ "textures/foo/bar/baz.jpg" ]} "textures/foo/").
  apply (bool_decide_unpack _). vm_compute. exact I.
Defined.

(** ** Comments in shader scripts *)

Lemma has_substr_tail (pat : string) (c : ascii) (s : string) :
  has_substr pat (String c s) = false →
  Py.startswith (String c s) pat = false ∧ has_substr pat s = false.
Proof. simpl. intros H. by apply orb_false_iff in H. Qed.

Lemma sub_empty_skip (m : string → option nat) (s t : string) (k : nat) :
  Re.sub_empty m (String.length s + k) (s +:+ t) = Re.sub_empty m k t.
Proof. induction s as [|c s IH]; [reflexivity|]. rewrite app_cons. exact IH. Qed.

Lemma span_app_stop (p : ascii → bool) (s rest : string) :
  all_chars p s = true → stops p rest = true →
  Re.span p (s +:+ rest) = (s, rest).
Proof.
  intros Hs Hrest. induction s as [|c s IH].
  - rewrite app_empty_l. destruct rest as [|a rest]; [done|].
    simpl in *. apply negb_true_iff in Hrest. by rewrite Hrest.
  - rewrite all_chars_cons in Hs. apply andb_true_iff in Hs as [Hc Hs].
    rewrite app_cons. simpl. by rewrite Hc, (IH Hs).
Qed.

Lemma close_len_None (s : string) :
  has_substr "*/" s = false → Re.close_len s = None.
Proof.
  induction s as [|c s IH]; [done|].
  intros [Hhere Htail]%has_substr_tail. simpl.
  destruct s as [|d s]; [done|].
  rewrite (IH Htail). simpl in Hhere.
  destruct (Ascii.eqb_spec c "*"%char) as [-> |];
    destruct (Ascii.eqb_spec d "/"%char) as [-> |]; simpl; try done.
  by destruct s.
Qed.

Lemma close_len_first (body post : string) :
  has_substr "*/" body = false →
  Re.close_len (body +:+ "*/" +:+ post) = Some (String.length body + 2)%nat.
Proof.
  induction body as [|c body IH]; [done|].
  intros [Hhere Htail]%has_substr_tail. rewrite app_cons.
  cbn [Re.close_len]. rewrite (IH Htail).
  destruct body as [|d body].
  - rewrite app_empty_l.
    change ("*/" +:+ post) with (String "*" (String "/" post)).
    cbv iota. replace (Ascii.eqb "*" "/") with false by reflexivity.
    by rewrite andb_false_r.
  - rewrite app_cons. simpl in Hhere.
    destruct (Ascii.eqb_spec c "*"%char) as [-> |];
      destruct (Ascii.eqb_spec d "/"%char) as [-> |]; simpl; try done.
    by destruct body.
Qed.

Lemma match_block_unclosed (s : string) :
  has_substr "*/" s = false → Re.match_block s = None.
Proof.
  intros Hs. destruct s as [|a [|b r]]; try done. simpl.
  apply has_substr_tail in Hs as [_ Hs]. apply has_substr_tail in Hs as [_ Hs].
  rewrite (close_len_None r Hs). by destruct (_ && _).
Qed.

Lemma sub_block_unclosed (text : string) :
  has_substr "*/" text = false → Re.sub_empty Re.match_block 0 text = text.
Proof.
  induction text as [|c text IH]; [done|]. intros Hs.
  cbn [Re.sub_empty]. rewrite (match_block_unclosed _ Hs).
  apply has_substr_tail in Hs as [_ Hs]. by rewrite (IH Hs).
Qed.

Lemma sub_line_none (text : string) :
  has_substr "//" text = false → Re.sub_empty Re.match_line 0 text = text.
Proof.
  induction text as [|c text IH]; [done|].
  intros [Hhere Htail]%has_substr_tail.
  cbn [Re.sub_empty].
  assert (Hm : Re.match_line (String c text) = None).
  { destruct text as [|d text]; [done|]. cbn [Re.match_line].
    destruct (Ascii.eqb_spec c "/"%char) as [-> |]; [|done].
    destruct (Ascii.eqb_spec d "/"%char) as [-> |]; [|done].
    by destruct text. }
  by rewrite Hm, (IH Htail).
Qed.

Lemma sub_empty_at (m : string → option nat) (c : ascii) (s : string)
    (len : nat) :
  m (String c s) = Some len →
  Re.sub_empty m 0 (String c s) = Re.sub_empty m (len - 1) s.
Proof. intros H. simpl. by rewrite H. Qed.

Lemma sub_empty_keep (m : string → option nat) (c : ascii) (s : string) :
  m (String c s) = None →
  Re.sub_empty m 0 (String c s) = String c (Re.sub_empty m 0 s).
Proof. intros H. simpl. by rewrite H. Qed.

Lemma match_block_closed (body post : string) :
  has_substr "*/" body = false →
  Re.match_block (String "/" (String "*" (body +:+ "*/" +:+ post)))
  = Some (2 + (String.length body + 2))%nat.
Proof. intros Hbody. simpl. by rewrite (close_len_first body post Hbody). Qed.

Lemma match_block_open (body : string) :
  has_substr "*/" body = false →
  Re.match_block (String "/" (String "*" body)) = None.
Proof. intros Hbody. simpl. by rewrite (close_len_None body Hbody). Qed.

(** X14: a block comment is removed as a whole, up to the first closing
    mark after its opening: when the text before holds no slash and the
    body no closing mark, what is left is the text before and what is left
    of the text after.  A comment that is not closed is left as it is, its
    opening mark included. *)
Theorem block_comment_removed (pre body post : string) :
  all_chars (λ c, negb (Ascii.eqb c "/"%char)) pre = true →
  has_substr "*/" body = false →
  Re.sub_empty Re.match_block 0 (pre +:+ "/*" +:+ body +:+ "*/" +:+ post)
  = pre +:+ Re.sub_empty Re.match_block 0 post
  ∧ Re.sub_empty Re.match_block 0 (pre +:+ "/*" +:+ body) = pre +:+ "/*" +:+ body.
Proof.
  intros Hpre Hbody. split.
  - rewrite (sub_empty_prefix Re.match_block) by auto using match_block_not_slash.
    f_equal.
    change ("/*" +:+ body +:+ "*/" +:+ post)
      with (String "/" (String "*" (body +:+ "*/" +:+ post))).
    rewrite (sub_empty_at _ _ _ _ (match_block_closed body post Hbody)).
    replace (String "*" (body +:+ "*/" +:+ post))
      with (String "*" (body +:+ "*/") +:+ post)
      by (by rewrite (app_cons "*" (body +:+ "*/") post), app_assoc_str).
    replace (2 + (String.length body + 2) - 1)%nat
      with (String.length (String "*" (body +:+ "*/")) + 0)%nat
      by (simpl; rewrite length_app_str; simpl; lia).
    apply sub_empty_skip.
  - rewrite (sub_empty_prefix Re.match_block) by auto using match_block_not_slash.
    f_equal.
    change ("/*" +:+ body) with (String "/" (String "*" body)).
    rewrite (sub_empty_keep _ _ _ (match_block_open body Hbody)). f_equal.
    assert (Hstar : Re.match_block (String "*" body) = None) by (by destruct body).
    rewrite (sub_empty_keep _ _ _ Hstar). f_equal. by apply sub_block_unclosed.
Qed.

Lemma block_comment_removed_witness :
  Re.sub_empty Re.match_block 0
    ("map a " +:+ "/*" +:+ " map textures/x * " +:+ "*/" +:+ " map b")
  = "map a " +:+ Re.sub_empty Re.match_block 0 " map b".
Proof.
  apply (block_comment_removed "map a " " map textures/x * " " map b");
    reflexivity.
Defined.

Lemma match_line_at (line rest : string) :
  all_chars (λ c, negb (Ascii.eqb c Re.newline)) line = true →
  stops (λ c, negb (Ascii.eqb c Re.newline)) rest = true →
  Re.match_line (String "/" (String "/" (line +:+ rest)))
  = Some (2 + String.length line)%nat.
Proof.
  intros Hline Hrest. simpl. by rewrite (span_app_stop _ line rest Hline Hrest).
Qed.

Lemma sub_line_at (line rest : string) :
  all_chars (λ c, negb (Ascii.eqb c Re.newline)) line = true →
  stops (λ c, negb (Ascii.eqb c Re.newline)) rest = true →
  Re.sub_empty Re.match_line 0 (String "/" (String "/" (line +:+ rest)))
  = Re.sub_empty Re.match_line 0 rest.
Proof.
  intros Hline Hrest.
  rewrite (sub_empty_at _ _ _ _ (match_line_at line rest Hline Hrest)).
  replace (String "/" (line +:+ rest)) with (String "/" line +:+ rest)
    by apply app_cons.
  replace (2 + String.length line - 1)%nat
    with (String.length (String "/" line) + 0)%nat by (simpl; lia).
  apply sub_empty_skip.
Qed.

(** X15: a line comment is removed from its two slashes up to the line
    feed, which stays, or up to the end of the text: when the text before
    holds no slash and the comment no line feed, what is left is the text
    before, the line feed, and what is left of the text after. *)
Theorem line_comment_removed (pre line post : string) :
  all_chars (λ c, negb (Ascii.eqb c "/"%char)) pre = true →
  all_chars (λ c, negb (Ascii.eqb c Re.newline)) line = true →
  Re.sub_empty Re.match_line 0
    (pre +:+ "//" +:+ line +:+ String Re.newline post)
  = pre +:+ String Re.newline (Re.sub_empty Re.match_line 0 post)
  ∧ Re.sub_empty Re.match_line 0 (pre +:+ "//" +:+ line) = pre.
Proof.
  intros Hpre Hline. split.
  - rewrite (sub_empty_prefix Re.match_line) by auto using match_line_not_slash.
    f_equal.
    change ("//" +:+ line +:+ String Re.newline post)
      with (String "/" (String "/" (line +:+ String Re.newline post))).
    rewrite (sub_line_at line (String Re.newline post)) by done.
    assert (Hnl : Re.match_line (String Re.newline post) = None)
      by (by destruct post).
    by rewrite (sub_empty_keep _ _ _ Hnl).
  - rewrite (sub_empty_prefix Re.match_line) by auto using match_line_not_slash.
    rewrite <- (app_empty_r pre) at 2. f_equal.
    rewrite <- (app_empty_r line).
    change ("//" +:+ line +:+ EmptyString)
      with (String "/" (String "/" (line +:+ EmptyString))).
    by rewrite (sub_line_at line EmptyString).
Qed.

Lemma line_comment_removed_witness :
  Re.sub_empty Re.match_line 0
    ("map a " +:+ "//" +:+ " map textures/x")
  = "map a ".
Proof.
  apply (line_comment_removed "map a " " map textures/x" EmptyString);
    reflexivity.
Defined.

(** ** A directive that is written as the pattern has it *)

Lemma strip_prefix_app (pre r : string) :
  Re.strip_prefix pre (pre +:+ r) = Some r.
Proof.
  induction pre as [|c pre IH]; [reflexivity|].
  rewrite app_cons. simpl. by rewrite Ascii.eqb_refl.
Qed.

Lemma head_app (s t : string) :
  s ≠ EmptyString → Re.head (s +:+ t) = Re.head s.
Proof. by destruct s. Qed.

Lemma keyword_edges (kw : string) :
  In kw Re.KEYWORDS →
  kw ≠ EmptyString
  ∧ Re.is_word_opt (Re.head kw) = true
  ∧ Re.is_word_opt (Re.last_char kw) = true.
Proof. intros [<- | [<- | [<- | [<- | []]]]]; by repeat split. Qed.

Lemma match_keyword_exact (kw ws tok rest : string) :
  In kw Re.KEYWORDS →
  all_chars Re.is_space ws = true → ws ≠ EmptyString →
  all_chars (λ c, negb (Re.is_space c)) tok = true → tok ≠ EmptyString →
  stops (λ c, negb (Re.is_space c)) rest = true →
  Re.match_keyword None (kw +:+ ws +:+ tok +:+ rest) kw
  = Some (kw, tok, (String.length kw + String.length ws + String.length tok)%nat).
Proof.
  intros Hkw Hws Hne Htok Hnet Hrest.
  destruct (keyword_edges kw Hkw) as (Hk & Hhead & Hlast).
  unfold Re.match_keyword.
  rewrite (head_app kw) by done. unfold Re.word_boundary at 1.
  rewrite Hhead. simpl xorb. cbv iota.
  rewrite strip_prefix_app.
  rewrite (head_app ws) by done. unfold Re.word_boundary.
  rewrite Hlast.
  destruct ws as [|a ws]; [done|]. destruct tok as [|b tok]; [done|].
  pose proof Hws as Ha. rewrite all_chars_cons in Ha.
  apply andb_true_iff in Ha as [Ha _].
  pose proof Htok as Hb. rewrite all_chars_cons in Hb.
  apply andb_true_iff in Hb as [Hb _].
  simpl Re.head. simpl Re.is_word_opt. rewrite (space_not_word a Ha).
  simpl xorb. cbv iota.
  rewrite (span_app_stop Re.is_space (String a ws) (String b tok +:+ rest) Hws)
    by (rewrite app_cons; simpl; by rewrite Hb).
  by rewrite (span_app_stop _ (String b tok) rest Htok Hrest).
Qed.

Lemma match_keyword_is_word (prev : option ascii) (v rest kw : string)
    (a : ascii) (r : string * string * nat) :
  In kw Re.KEYWORDS → all_chars Re.is_word v = true → Re.is_space a = true →
  Re.match_keyword prev (v +:+ String a rest) kw = Some r → kw = v.
Proof.
  intros Hkw Hv Ha. unfold Re.match_keyword.
  destruct (Re.word_boundary prev _); [|done].
  destruct (Re.strip_prefix kw _) as [r1|] eqn:Hsp; [|done].
  apply strip_prefix_Some in Hsp.
  destruct (Re.word_boundary (Re.last_char kw) _); [|done].
  destruct (Re.span Re.is_space r1) as [ws r2] eqn:Hws.
  destruct (Re.span _ r2) as [tok r3].
  destruct ws as [|b ws]; [done|].
  apply span_head in Hws as (r1' & -> & Hb). intros _. symmetry.
  apply (word_prefix_unique v kw rest r1' a b);
    auto using keyword_word, space_not_word.
Qed.

Lemma first_match_unique {A B} (f : A → option B) (l : list A) (x : A) (y : B) :
  In x l → f x = Some y →
  (∀ x' r, In x' l → f x' = Some r → x' = x) →
  Re.first_match f l = Some y.
Proof.
  intros Hin Hx Huniq. induction l as [|a l IH]; [done|]. simpl.
  destruct (f a) as [r|] eqn:Ha.
  - rewrite (Huniq a r) in Ha by (by left || done). congruence.
  - destruct Hin as [-> | Hin]; [congruence|].
    apply IH; [done|]. intros x' r Hx'. apply Huniq. by right.
Qed.

Lemma findall_skip_all (s : string) (k : nat) (prev : option ascii) :
  (String.length s ≤ k)%nat → Re.findall_directive k prev s = [].
Proof.
  revert k prev. induction s as [|c s IH]; intros k prev Hk; [done|].
  simpl in Hk. destruct k as [|k]; [lia|]. simpl. apply IH. lia.
Qed.

(** A script that is one directive: a keyword, spaces and a token. *)
Lemma findall_exact_directive (kw ws tok : string) :
  In kw Re.KEYWORDS →
  all_chars Re.is_space ws = true → ws ≠ EmptyString →
  all_chars (λ c, negb (Re.is_space c)) tok = true → tok ≠ EmptyString →
  Re.findall_directive 0 None (kw +:+ ws +:+ tok) = [(kw, tok)].
Proof.
  intros Hkw Hws Hne Htok Hnet.
  destruct (keyword_edges kw Hkw) as (Hk & _ & _).
  assert (Hm : Re.match_directive None (kw +:+ ws +:+ tok)
               = Some (kw, tok, (String.length kw + String.length ws
                                 + String.length tok)%nat)).
  { unfold Re.match_directive. apply (first_match_unique _ _ kw); [done | |].
    - rewrite <- (app_empty_r tok) at 1. by apply match_keyword_exact.
    - intros kw' r Hkw' Hr. destruct ws as [|a ws]; [done|].
      rewrite all_chars_cons in Hws. apply andb_true_iff in Hws as [Ha _].
      rewrite app_cons in Hr.
      exact (match_keyword_is_word None kw _ kw' a r Hkw'
               (keyword_word kw Hkw) Ha Hr). }
  destruct kw as [|c kw]; [done|]. rewrite app_cons in *.
  cbn [Re.findall_directive]. rewrite Hm. f_equal.
  apply findall_skip_all. rewrite !length_app_str. simpl. lia.
Qed.

Lemma lstrip_id (c : ascii) (s : string) :
  Re.head s ≠ Some c → Py.lstrip c s = s.
Proof.
  destruct s as [|a s]; [done|]. simpl.
  destruct (Ascii.eqb_spec a c) as [-> |]; [by intros [] | done].
Qed.

Lemma strip_id (c : ascii) (s : string) :
  Re.head s ≠ Some c → Re.last_char s ≠ Some c → Py.strip c s = s.
Proof.
  intros Hhead Hlast. unfold Py.strip, Py.rstrip.
  rewrite (lstrip_id c s Hhead), (lstrip_id c (String.rev s)) by done.
  apply rev_involutive_str.
Qed.

Lemma strip_comments_none (text : string) :
  has_substr "//" text = false → has_substr "*/" text = false →
  strip_comments text = text.
Proof.
  intros Hline Hblock. unfold strip_comments.
  by rewrite (sub_block_unclosed text Hblock), (sub_line_none text Hline).
Qed.

(** X16: a script that is one directive, written with one of the four
    keywords, spaces, and a path that starts with [textures/], [models/] or
    [sound/], holds no white space and no comment mark and does not end
    with a double quote, adds exactly that path. *)
Theorem exact_directive_scanned (acc : gset string) (kw ws path : string) :
  In kw Re.KEYWORDS →
  all_chars Re.is_space ws = true → ws ≠ EmptyString →
  all_chars (λ c, negb (Re.is_space c)) path = true →
  existsb (fun root => Py.startswith path root) SHADER_ROOTS = true →
  Re.last_char path ≠ Some Re.dquote →
  has_substr "//" path = false → has_substr "*/" path = false →
  scan_shader_text acc (kw +:+ ws +:+ path) = acc ∪ {[ path ]}.
Proof.
  intros Hkw Hws Hne Hpath Hroot Hlast Hline Hblock.
  assert (Hnep : path ≠ EmptyString).
  { intros ->. discriminate Hroot. }
  assert (Hhead : Re.head path ≠ Some Re.dquote).
  { apply existsb_exists in Hroot as (root & Hin & Hs).
    apply startswith_iff in Hs as [r ->].
    simpl in Hin. destruct Hin as [<- | [<- | [<- | []]]]; discriminate. }
  unfold scan_shader_text.
  rewrite strip_comments_word_spaces by auto using keyword_word.
  rewrite (strip_comments_none path Hline Hblock).
  rewrite findall_exact_directive by done.
  simpl foldl. unfold add_shader_path. simpl snd.
  by rewrite (strip_id Re.dquote path Hhead Hlast), Hroot.
Qed.

Lemma exact_directive_scanned_witness :
  scan_shader_text ∅ ("clampMap" +:+ "  " +:+ "textures/sky/up.tga")
  = ∅ ∪ {[ "textures/sky/up.tga" ]}.
Proof.
  apply (exact_directive_scanned ∅ "clampMap" "  " "textures/sky/up.tga");
    try reflexivity; try discriminate.
  right. right. left. reflexivity.
Defined.

(** ** The truth test on the result of [find_in_set] *)

(** X17: the loop tests the result of [find_in_set] for truth, and the
    empty string is false: for the empty dependency and a set that holds
    only the empty string the result is the empty string, which counts as
    no match.  No dependency that [gather_deps] returns is empty, and for
    these the test succeeds exactly when a candidate is in the set. *)
Theorem truth_test_is_match_test
    (z : ZipFile) (deps map_files s : gset string) (dep : string) :
  gather_deps z = Ok (deps, map_files) → dep ∈ deps →
  dep ≠ EmptyString
  ∧ (Py.truthy (find_in_set dep s) = true
     ↔ ∃ c, In c (candidates dep) ∧ c ∈ s)
  ∧ find_in_set EmptyString {[ EmptyString ]} = Some EmptyString
  ∧ Py.truthy (find_in_set EmptyString {[ EmptyString ]}) = false.
Proof.
  intros Hdeps Hin.
  pose proof (gather_deps_no_empty z deps map_files Hdeps dep Hin) as Hne.
  split; [done|]. split; [|split; reflexivity].
  by rewrite truthy_matches, bool_decide_eq_true, matches_iff.
Qed.

Lemma truth_test_is_match_test_witness :
  Py.truthy (find_in_set "textures/foo/bar" {[ "textures/foo/bar.jpg" ]}) = true
  ↔ ∃ c, In c (candidates "textures/foo/bar")
         ∧ c ∈ ({[ "textures/foo/bar.jpg" ]} : gset string).
Proof.
  refine (proj1 (proj2 (truth_test_is_match_test Sample.scenario_a
                          {[ "textures/foo/bar" ]}
                          {[ "maps/a.bsp"; "textures/foo/bar.jpg" ]}
                          {[ "textures/foo/bar.jpg" ]} "textures/foo/bar" _ _))).
  - vm_compute. reflexivity.
  - apply elem_of_singleton. reflexivity.
Defined.

(** ** Lumps that lie outside the file *)

Lemma range_nonpos (n : Z) : n ≤ 0 → Py.range n = [].
Proof. intros Hn. unfold Py.range. by replace (Z.to_nat n) with 0%nat by lia. Qed.

Lemma slice_past_end {A} (l : list A) (start stop : Z) :
  Z.of_nat (List.length l) ≤ start → Py.slice l start stop = [].
Proof.
  intros Hstart. unfold Py.slice, Py.norm_index.
  destruct (Z.ltb_spec start 0); [lia|].
  rewrite drop_ge by lia. apply take_nil.
Qed.

Lemma slice_backwards {A} (l : list A) (start stop : Z) :
  0 ≤ stop ≤ start → Py.slice l start stop = [].
Proof.
  intros H. unfold Py.slice, Py.norm_index.
  destruct (Z.ltb_spec start 0); [lia|]. destruct (Z.ltb_spec stop 0); [lia|].
  set (n := Z.of_nat (List.length l)).
  replace (Z.to_nat (Z.min stop n - Z.min start n)) with 0%nat by lia. done.
Qed.

Lemma gather_entities_no_text (data : list Byte.byte) (off length : Z) :
  Py.slice data off (off + length) = [] → gather_entities data off length = ∅.
Proof. intros H. unfold gather_entities. by rewrite H. Qed.

(** X18: a lump that lies outside the file is read as empty, without
    error: a texture lump shorter than one record, or one that starts at or
    after the end of the data, gives no texture name; an entity lump that
    starts at or after the end of the data, or whose length is not
    positive while its end is not negative, gives no entity path. *)
Theorem lumps_outside_file (data : list Byte.byte) (off L : Z) :
  (L < 72 → gather_textures data off L = ∅)
  ∧ (Z.of_nat (List.length data) ≤ off →
       gather_textures data off L = ∅ ∧ gather_entities data off L = ∅)
  ∧ (L ≤ 0 → 0 ≤ off + L → gather_entities data off L = ∅).
Proof.
  split; [|split].
  - intros HL. unfold gather_textures, texture_records.
    rewrite range_nonpos; [done|].
    assert (L / 72 < 1) by (apply Z.div_lt_upper_bound; lia). lia.
  - intros Hoff. split.
    + apply elem_of_equiv_empty_L.
      intros name (Hne & i & Hi & ->)%elem_of_gather_textures.
      apply Hne. unfold texture_name, record_bytes.
      rewrite slice_past_end; [done | lia].
    + apply gather_entities_no_text. by apply slice_past_end.
  - intros HL Hend. apply gather_entities_no_text.
    apply slice_backwards. lia.
Qed.

Lemma lumps_outside_file_witness :
  gather_textures (Sample.bsp EmptyString ["textures/foo/bar"]) 144 71 = ∅
  ∧ gather_textures (Sample.bsp EmptyString ["textures/foo/bar"]) 216 72 = ∅.
Proof.
  split.
  - apply (proj1 (lumps_outside_file
                    (Sample.bsp EmptyString ["textures/foo/bar"]) 144 71)).
    lia.
  - apply (proj1 (proj2 (lumps_outside_file
                           (Sample.bsp EmptyString ["textures/foo/bar"])
                           216 72))).
    vm_compute. discriminate.
Defined.

(** ** Indices later in the priority *)

Lemma bucket_of_dep_earlier (tf mf demo patch full patch' full' : gset string)
    (d : string) :
  (∀ demo', bucket_of_dep tf mf demo patch full d = Some FoundMap
            ↔ bucket_of_dep tf mf demo' patch' full' d = Some FoundMap)
  ∧ (bucket_of_dep tf mf demo patch full d = Some FoundDemo
     ↔ bucket_of_dep tf mf demo patch' full' d = Some FoundDemo)
  ∧ (bucket_of_dep tf mf demo patch full d = Some FoundPatch
     ↔ bucket_of_dep tf mf demo patch full' d = Some FoundPatch).
Proof.
  unfold bucket_of_dep. destruct (ignored d); [by repeat split|].
  destruct (in_texture_folder tf d || Py.truthy (find_in_set d mf)).
  { by repeat split. }
  split; [|split].
  - intros demo'. split; intros H;
      repeat match type of H with
             | (if ?c then _ else _) = _ => destruct c; try discriminate H
             end.
  - destruct (Py.truthy (find_in_set d demo)); [done|].
    split; intros H;
      repeat match type of H with
             | (if ?c then _ else _) = _ => destruct c; try discriminate H
             end.
  - destruct (Py.truthy (find_in_set d demo)); [done|].
    destruct (Py.truthy (find_in_set d patch)); [done|].
    split; intros H;
      repeat match type of H with
             | (if ?c then _ else _) = _ => destruct c; try discriminate H
             end.
Qed.

(** X19: an index later in the priority never changes an earlier list:
    the found-in-map list does not depend on the demo, patch and full
    indices, the found-in-demo list not on the patch and full indices, and
    the found-in-patch list not on the full index. *)
Theorem earlier_lists_independent
    (tf mf demo demo' patch patch' full full' deps : gset string) :
  found_map (classify_all tf mf demo patch full deps)
  = found_map (classify_all tf mf demo' patch' full' deps)
  ∧ found_demo (classify_all tf mf demo patch full deps)
    = found_demo (classify_all tf mf demo patch' full' deps)
  ∧ found_patch (classify_all tf mf demo patch full deps)
    = found_patch (classify_all tf mf demo patch full' deps).
Proof.
  change (found_map ?bs) with (bucket_list FoundMap bs).
  change (found_demo ?bs) with (bucket_list FoundDemo bs).
  change (found_patch ?bs) with (bucket_list FoundPatch bs).
  rewrite !classify_all_bucket_list.
  split; [|split]; apply list_filter_iff; intros d;
    apply (bucket_of_dep_earlier tf mf demo patch full patch' full' d).
Qed.
